(** * Planet-Simulation: the simulation-and-projection engine of [Planets.py]

    A shallow embedding of the gravitational N-body simulator: the
    orbit initializer, the force loop, the semi-implicit Euler step, the
    world-to-screen projection, the bounded trail and the event handlers
    that drive camera, zoom and reset.

    Numbers.  World coordinates, velocities and masses are Python floats
    in the program; they are read here as real numbers ([R]), the reading
    under which the program's formulas are stated.  Camera offsets, pointer
    positions and screen coordinates are Python ints and are integers
    ([Z]) here.  A statement that compares two separately rounded
    results is read on the binary64 floats themselves (module [B64]).

    Errors.  Float division by zero, [math.sqrt] of a negative number and
    subscripting [None] raise in Python; the embedding keeps them as
    results of an error monad, so that "the frame runs" is a statement to
    prove and not an assumption.

    Store.  [bodies] is one list of objects mutated in place; a body is
    identified by its index in that list, which is what the identity test
    [other != self] of the program compares. *)

From Stdlib Require Import Reals Lra Lia ZArith.
From Stdlib Require Floats.
From stdpp Require Import base list strings.

Local Open Scope R_scope.

(** ** Python primitives used by the program *)

Module Py.

Inductive exn : Type :=
| ZeroDivisionError
| ValueError
| TypeError
| IndexError.

Inductive result (A : Type) : Type :=
| Ok (a : A)
| Raise (e : exn).
Arguments Ok {A} a.
Arguments Raise {A} e.

Definition bind {A B : Type} (m : result A) (k : A -> result B) : result B :=
  match m with
  | Ok a => k a
  | Raise e => Raise e
  end.

(** [x / y] on floats. *)
Definition truediv (x y : R) : result R :=
  if Req_dec_T y 0 then Raise ZeroDivisionError else Ok (x / y).

(** [math.sqrt(x)]. *)
Definition math_sqrt (x : R) : result R :=
  if Rlt_dec x 0 then Raise ValueError else Ok (sqrt x).

(** [int(x)] on a float: truncation toward zero. *)
Definition int (x : R) : Z :=
  if Rle_dec 0 x then Int_part x else (- Int_part (- x))%Z.

(** [seq[k]] on an optional pair: [None] is not subscriptable. *)
Definition subscript {A : Type} (o : option A) : result A :=
  match o with
  | Some a => Ok a
  | None => Raise TypeError
  end.

(** [[f(d) for d in data]]: the first exception aborts the comprehension. *)
Fixpoint comprehension {A B : Type} (f : A -> result B) (data : list A)
  : result (list B) :=
  match data with
  | [] => Ok []
  | d :: data' =>
      bind (f d) (fun b =>
      bind (comprehension f data') (fun bs => Ok (b :: bs)))
  end.

End Py.

Import Py.

Notation "'let*' x := m 'in' k" := (bind m (fun x => k))
  (at level 10, x pattern, m at level 100, k at level 200).

(** ** Simulation parameters (module level of [Planets.py]) *)

Definition WIDTH : Z := 900.
Definition HEIGHT : Z := 600.

Definition G : R := 6.6743e-11.
Definition SCALE : R := 2.5e-11.
Definition ZOOM_SCALE : R := 1e-10.
Definition DT : R := 3600.
Definition AU : R := 1.496e11.

(** [reset_button = pygame.Rect(10, 10, 100, 30)] and its [collidepoint]:
    a point is inside when [left <= x < left + width] and
    [top <= y < top + height]. *)
Record Rect : Type := mkRect
  { left : Z; top : Z; width : Z; height : Z }.

Definition collidepoint (r : Rect) (pos : Z * Z) : bool :=
  (left r <=? pos.1)%Z && (pos.1 <? left r + width r)%Z &&
  (top r <=? pos.2)%Z && (pos.2 <? top r + height r)%Z.

Definition reset_button : Rect := mkRect 10 10 100 30.

(** ** class Body *)

Module Body.

Record t : Type := mk
  { x : R; y : R;
    vx : R; vy : R;
    mass : R; radius : Z; color : Z * Z * Z;
    name : string;
    trail : list (Z * Z) }.

(** [Body.__init__]: the trail starts empty. *)
Definition init (x y vx vy mass : R) (radius : Z) (color : Z * Z * Z)
    (name : string) : t :=
  {| x := x; y := y; vx := vx; vy := vy;
     mass := mass; radius := radius; color := color;
     name := name; trail := [] |}.

Definition set_trail (b : t) (tr : list (Z * Z)) : t :=
  {| x := x b; y := y b; vx := vx b; vy := vy b;
     mass := mass b; radius := radius b; color := color b;
     name := name b; trail := tr |}.

End Body.

(** ** Orbital data and the orbit initializer *)

Record orbit : Type := mkOrbit
  { o_a : R; o_e : R; o_mass : R; o_radius : Z; o_color : Z * Z * Z;
    o_name : string }.

Definition planets_data : list orbit :=
  [ mkOrbit 0 0 1.989e30 8 (255, 255, 0)%Z "Sun";
    mkOrbit 5.791e10 0.2056 3.301e23 2 (169, 169, 169)%Z "Mercury";
    mkOrbit 1.082e11 0.0067 4.867e24 3 (255, 165, 0)%Z "Venus";
    mkOrbit 1.496e11 0.0167 5.972e24 4 (0, 100, 255)%Z "Earth";
    mkOrbit 2.279e11 0.0934 6.39e23 3 (255, 100, 0)%Z "Mars";
    mkOrbit 7.785e11 0.0489 1.898e27 6 (200, 150, 100)%Z "Jupiter";
    mkOrbit 1.429e12 0.0565 5.683e26 5 (250, 200, 100)%Z "Saturn";
    mkOrbit 2.871e12 0.0463 8.681e25 4 (100, 200, 255)%Z "Uranus";
    mkOrbit 4.498e12 0.0086 1.024e26 4 (0, 0, 255)%Z "Neptune";
    mkOrbit 5.906e12 0.2488 1.309e22 2 (150, 100, 50)%Z "Pluto" ].

(** The default value of the keyword argument [central_mass]. *)
Definition default_central_mass : R := 1.989e30.

Definition get_initial_conditions (a e mass : R) (radius : Z)
    (color : Z * Z * Z) (name : string) (central_mass : R) : result Body.t :=
  let r := a * (1 - e) in
  let x := r in
  let y := 0 in
  if Req_dec_T a 0 then Ok (Body.init 0 0 0 0 mass radius color name)
  else
    let* q := truediv (G * central_mass * (1 + e)) (a * (1 - e)) in
    let* v := math_sqrt q in
    let vx := 0 in
    let vy := v in
    Ok (Body.init x y vx vy mass radius color name).

(** The call with an unpacked data tuple: the six fields are passed and
    [central_mass] is left at its default. *)
Definition initial_body (d : orbit) : result Body.t :=
  get_initial_conditions (o_a d) (o_e d) (o_mass d) (o_radius d) (o_color d)
    (o_name d) default_central_mass.

(** ** Global state of the program

    [bodies], the camera and zoom variables, the pan state and the two loop
    flags are module-level variables of [Planets.py]; they are threaded
    explicitly here. *)

Record state : Type := mkState
  { bodies : list Body.t;
    camera_x : Z; camera_y : Z;
    zoomed : bool;
    panning : bool;
    last_mouse_pos : option (Z * Z);
    trail_reset : bool;
    running : bool }.

Definition set_bodies (s : state) (bs : list Body.t) : state :=
  mkState bs (camera_x s) (camera_y s) (zoomed s) (panning s)
    (last_mouse_pos s) (trail_reset s) (running s).

Definition set_camera (s : state) (cx cy : Z) : state :=
  mkState (bodies s) cx cy (zoomed s) (panning s)
    (last_mouse_pos s) (trail_reset s) (running s).

Definition set_zoomed (s : state) (z : bool) : state :=
  mkState (bodies s) (camera_x s) (camera_y s) z (panning s)
    (last_mouse_pos s) (trail_reset s) (running s).

Definition set_panning (s : state) (p : bool) : state :=
  mkState (bodies s) (camera_x s) (camera_y s) (zoomed s) p
    (last_mouse_pos s) (trail_reset s) (running s).

Definition set_last_mouse_pos (s : state) (p : option (Z * Z)) : state :=
  mkState (bodies s) (camera_x s) (camera_y s) (zoomed s) (panning s)
    p (trail_reset s) (running s).

Definition set_trail_reset (s : state) (t : bool) : state :=
  mkState (bodies s) (camera_x s) (camera_y s) (zoomed s) (panning s)
    (last_mouse_pos s) t (running s).

Definition set_running (s : state) (r : bool) : state :=
  mkState (bodies s) (camera_x s) (camera_y s) (zoomed s) (panning s)
    (last_mouse_pos s) (trail_reset s) r.

(** ** Body.update_position *)

(** The projection written out in [update_position] and again in [draw]:
    [int(v * current_scale + SIZE // 2 - camera)] for one coordinate. *)
Definition current_scale (s : state) : R :=
  if zoomed s then ZOOM_SCALE else SCALE.

Definition screen_x (s : state) (x : R) : Z :=
  int (x * current_scale s + IZR (WIDTH `div` 2) - IZR (camera_x s)).

Definition screen_y (s : state) (y : R) : Z :=
  int (y * current_scale s + IZR (HEIGHT `div` 2) - IZR (camera_y s)).

(** One pass of the body of [for other in bodies] for an [other] that is
    not [self]: the running sums [(fx, fy)] before and after.  The pass is
    written over the division it calls, so that a statement can say which
    divisions it evaluates; the program's pass is the one at [truediv]. *)
Section ForcePass.

Variable div : R -> R -> result R.

Definition accumulate_with (self other : Body.t) (f : R * R)
    : result (R * R) :=
  let fx := f.1 in
  let fy := f.2 in
  let dx := Body.x other - Body.x self in
  let dy := Body.y other - Body.y self in
  let* r := math_sqrt (dx ^ 2 + dy ^ 2) in
  if Rgt_dec r 1e3 then
    let* f := div (G * Body.mass self * Body.mass other) (r ^ 2) in
    let* tx := div (f * dx) r in
    let* ty := div (f * dy) r in
    Ok (fx + tx, fy + ty)
  else Ok (fx, fy).

End ForcePass.

Definition accumulate : Body.t -> Body.t -> R * R -> result (R * R) :=
  accumulate_with truediv.

(** [for other in bodies: if other != self: ...].  [i] is the index of
    [self] in the store and [j] the index of the element the loop is at. *)
Fixpoint force_loop (i : nat) (self : Body.t) (j : nat) (others : list Body.t)
    (f : R * R) : result (R * R) :=
  match others with
  | [] => Ok f
  | other :: others' =>
      if (j =? i)%nat then force_loop i self (S j) others' f
      else
        let* f' := accumulate self other f in
        force_loop i self (S j) others' f'
  end.

(** [self.trail.append(p)] followed by [if len(self.trail) > 200:
    self.trail.pop(0)]. *)
Definition push_trail (tr : list (Z * Z)) (p : Z * Z) : list (Z * Z) :=
  let tr := tr ++ [p] in
  if (200 <? length tr)%nat then tail tr else tr.

(** [bodies[i].update_position(bodies)]. *)
Definition update_position (i : nat) (s : state) : result state :=
  let* self := match bodies s !! i with
               | Some b => Ok b
               | None => Raise IndexError
               end in
  let* f := force_loop i self 0 (bodies s) (0, 0) in
  let fx := f.1 in
  let fy := f.2 in
  let* ax := truediv fx (Body.mass self) in
  let* ay := truediv fy (Body.mass self) in
  let vx := Body.vx self + ax * DT in
  let vy := Body.vy self + ay * DT in
  let x := Body.x self + vx * DT in
  let y := Body.y self + vy * DT in
  let p := (screen_x s x, screen_y s y) in
  let self' :=
    Body.mk x y vx vy (Body.mass self) (Body.radius self) (Body.color self)
      (Body.name self) (push_trail (Body.trail self) p) in
  Ok (set_bodies s (<[i := self']> (bodies s))).

(** The part of [Body.draw] that the engine decides: where the circle is
    put and with which radius ([max(self.radius, 2)]).  Drawing itself
    changes no state. *)
Definition draw (s : state) (b : Body.t) : Z * Z * Z :=
  (screen_x s (Body.x b), screen_y s (Body.y b), Z.max (Body.radius b) 2).

(** ** reset_simulation *)

Definition reset_simulation (s : state) : result state :=
  let* bs := comprehension initial_body planets_data in
  let s := set_bodies s bs in
  let s := set_camera s 0 0 in
  Ok (set_zoomed s false).

(** ** Events and the event loop *)

Inductive key : Type :=
| K_z | K_LEFT | K_RIGHT | K_UP | K_DOWN | K_other.

Inductive event : Type :=
| QUIT
| KEYDOWN (k : key)
| MOUSEBUTTONDOWN (button : Z) (pos : Z * Z)
| MOUSEBUTTONUP (button : Z) (pos : Z * Z)
| MOUSEMOTION (pos : Z * Z)
| OTHER.

(** The body of [for event in pygame.event.get()]. *)
Definition handle_event (ev : event) (s : state) : result state :=
  match ev with
  | QUIT => Ok (set_running s false)
  | KEYDOWN K_z => Ok (set_trail_reset (set_zoomed s (negb (zoomed s))) true)
  | KEYDOWN K_LEFT =>
      Ok (set_trail_reset (set_camera s (camera_x s - 50) (camera_y s)) true)
  | KEYDOWN K_RIGHT =>
      Ok (set_trail_reset (set_camera s (camera_x s + 50) (camera_y s)) true)
  | KEYDOWN K_UP =>
      Ok (set_trail_reset (set_camera s (camera_x s) (camera_y s - 50)) true)
  | KEYDOWN K_DOWN =>
      Ok (set_trail_reset (set_camera s (camera_x s) (camera_y s + 50)) true)
  | KEYDOWN K_other => Ok s
  | MOUSEBUTTONDOWN button pos =>
      if (button =? 1)%Z then
        if collidepoint reset_button pos then
          let* s := reset_simulation s in
          Ok (set_trail_reset s true)
        else Ok (set_last_mouse_pos (set_panning s true) (Some pos))
      else Ok s
  | MOUSEBUTTONUP button _ =>
      if (button =? 1)%Z then Ok (set_panning s false) else Ok s
  | MOUSEMOTION current_pos =>
      if panning s then
        let* last := subscript (last_mouse_pos s) in
        let s := set_camera s (camera_x s + (last.1 - current_pos.1))
                              (camera_y s + (last.2 - current_pos.2)) in
        let s := set_last_mouse_pos s (Some current_pos) in
        Ok (set_trail_reset s true)
      else Ok s
  | OTHER => Ok s
  end.

Fixpoint handle_events (evs : list event) (s : state) : result state :=
  match evs with
  | [] => Ok s
  | ev :: evs' =>
      let* s := handle_event ev s in
      handle_events evs' s
  end.

(** ** The main loop *)

(** [body.trail = []] for the body at index [i]. *)
Definition clear_trail (i : nat) (s : state) : state :=
  match bodies s !! i with
  | Some b => set_bodies s (<[i := Body.set_trail b []]> (bodies s))
  | None => s
  end.

(** [for body in bodies: body.update_position(bodies); if trail_reset:
    body.trail = []; body.draw(mouse_pos)], over the indices still to
    visit.  [draw] reads the state and writes to the screen only, so it
    does not show in the state the loop passes on. *)
Fixpoint body_loop (idx : list nat) (s : state) : result state :=
  match idx with
  | [] => Ok s
  | i :: idx' =>
      let* s := update_position i s in
      let s := if trail_reset s then clear_trail i s else s in
      body_loop idx' s
  end.

(** One pass of the body of [while running]: the events of the frame, the
    body loop, then [trail_reset = False]. *)
Definition frame (evs : list event) (s : state) : result state :=
  let* s := handle_events evs s in
  let* s := body_loop (seq 0 (length (bodies s))) s in
  Ok (set_trail_reset s false).

(** [while running: ...], against the event batches the frames receive. *)
Fixpoint main_loop (frames : list (list event)) (s : state) : result state :=
  match frames with
  | [] => Ok s
  | evs :: frames' =>
      if running s then
        let* s := frame evs s in
        main_loop frames' s
      else Ok s
  end.

(** The state the loop is entered with: [bodies] built from
    [planets_data], every flag at its initial value. *)
Definition initial_state : result state :=
  let* bs := comprehension initial_body planets_data in
  Ok (mkState bs 0 0 false false None false true).

(** ** Notions used in the statements *)

(** The distance the force loop computes between two bodies. *)
Definition separation (a b : Body.t) : R :=
  sqrt ((Body.x b - Body.x a) ^ 2 + (Body.y b - Body.y a) ^ 2).

(** The force [accumulate] adds for the pair: what the pass does to sums
    that start at zero. *)
Definition pair_force (self other : Body.t) : result (R * R) :=
  accumulate self other (0, 0).

(** Length of a force vector. *)
Definition magnitude (f : R * R) : R := sqrt (f.1 ^ 2 + f.2 ^ 2).

(** The body [update_position] stores for [self] once the force loop has
    returned the sums [f]: velocity, position and trail after the step. *)
Definition stepped (s : state) (self : Body.t) (f : R * R) : Body.t :=
  let ax := f.1 / Body.mass self in
  let ay := f.2 / Body.mass self in
  let vx := Body.vx self + ax * DT in
  let vy := Body.vy self + ay * DT in
  let x := Body.x self + vx * DT in
  let y := Body.y self + vy * DT in
  Body.mk x y vx vy (Body.mass self) (Body.radius self) (Body.color self)
    (Body.name self)
    (push_trail (Body.trail self) (screen_x s x, screen_y s y)).

(** *** Sample inputs *)

Definition body_A : Body.t := Body.init 0 0 0 0 1e15 2 (255, 255, 0)%Z "A".
Definition body_B : Body.t := Body.init 3600 0 0 0 1e15 2 (0, 0, 255)%Z "B".

(** Two bodies of [1e15] kg at rest, [3600] m apart on the x-axis. *)
Definition two_bodies : state :=
  mkState [body_A; body_B] 0 0 false false None false true.

(** A body at [(d, 0)], for pairs at a chosen distance from [body_A]. *)
Definition body_at (d : R) : Body.t :=
  Body.init d 0 0 0 1e15 2 (0, 0, 255)%Z "B".

(** "[v] is approximately [ref]": the two agree to one part in a hundred. *)
Definition approximately (ref v : R) : Prop :=
  Rabs (v - ref) <= Rabs ref / 100.

(** The Earth record of [planets_data], as the call that builds the Earth. *)
Definition earth : result Body.t :=
  get_initial_conditions 1.496e11 0.0167 5.972e24 4 (0, 100, 255)%Z "Earth"
    1.989e30.

(** The reset command: a press of the primary button on the reset
    control. *)
Definition reset_click : event := MOUSEBUTTONDOWN 1 (20, 20)%Z.

(** The state right after a reset, given the bodies the initializer
    returns and the state the reset was invoked in. *)
Definition after_reset (bs : list Body.t) (s : state) : state :=
  mkState bs 0 0 false (panning s) (last_mouse_pos s) (trail_reset s)
    (running s).

(** The body the loop of a frame leaves at an index: the stepped body,
    with its trail emptied when the trail-reset flag is up. *)
Definition visited (s : state) (self : Body.t) (f : R * R) : Body.t :=
  if trail_reset s then Body.set_trail (stepped s self f) []
  else stepped s self f.

(** The frame of [two_bodies], body by body.  [body_A'] is [body_A] after
    its step; [body_B_seq] is [body_B] stepped against [body_A'], as the
    loop does it; [body_B_snap] is [body_B] stepped against [body_A] as it
    was at the start of the frame; [body_A_rev] is [body_A] stepped against
    [body_B_snap], as a loop over the indices in reverse would do it. *)
Definition force_A : R * R := (1e30 * G / 3600 ^ 2, 0).
Definition body_A' : Body.t := stepped two_bodies body_A force_A.
Definition force_B_seq : R * R := (1e30 * G / 63143 ^ 2, 0).
Definition body_B_seq : Body.t := stepped two_bodies body_B force_B_seq.
Definition force_B_snap : R * R := (- (1e30 * G / 3600 ^ 2), 0).
Definition body_B_snap : Body.t := stepped two_bodies body_B force_B_snap.
Definition force_A_rev : R * R := (- (1e30 * G / 63143 ^ 2), 0).
Definition body_A_rev : Body.t := stepped two_bodies body_A force_A_rev.

(** What the pan handler relies on: while panning, the anchor is set. *)
Definition pan_invariant (s : state) : Prop :=
  panning s = true -> is_Some (last_mouse_pos s).

(** States in which a frame runs without raising: no massless body (the
    step divides by the mass) and the pan handler's anchor in place. *)
Definition well_formed (s : state) : Prop :=
  Forall (fun b => Body.mass b <> 0) (bodies s) /\ pan_invariant s.

(** The number of frames the loop has run since the trails were last
    emptied, counted along the run of [main_loop]: [n] on entry, back to
    [0] in a frame whose events raise the trail-reset flag, one more after
    any other frame. *)
Fixpoint frames_since_reset (frames : list (list event)) (s : state)
    (n : nat) : nat :=
  match frames with
  | [] => n
  | evs :: frames' =>
      if running s then
        match handle_events evs s, frame evs s with
        | Ok s1, Ok s' =>
            frames_since_reset frames' s' (if trail_reset s1 then 0 else S n)
        | _, _ => n
        end
      else n
  end.

(** The events that invoke the reset: a press of the primary button on
    the reset control. *)
Definition is_reset_click (ev : event) : bool :=
  match ev with
  | MOUSEBUTTONDOWN button pos =>
      (button =? 1)%Z && collidepoint reset_button pos
  | _ => false
  end.

(** The bodies the program starts with, written out: the Sun at rest at
    the origin and every planet at its perihelion. *)
Definition sun : Body.t :=
  Body.init 0 0 0 0 1.989e30 8 (255, 255, 0)%Z "Sun".

Definition at_perihelion (d : orbit) : Body.t :=
  Body.init (o_a d * (1 - o_e d)) 0
    0 (sqrt (G * default_central_mass * (1 + o_e d) / (o_a d * (1 - o_e d))))
    (o_mass d) (o_radius d) (o_color d) (o_name d).

Definition initial_bodies : list Body.t :=
  sun :: map at_perihelion (tail planets_data).

(** The state the main loop is entered in. *)
Definition start : state :=
  mkState initial_bodies 0 0 false false None false true.

(** The states of a run: the start, and what an event or a whole frame
    makes of a state of a run. *)
Inductive reachable : state -> Prop :=
| reachable_start : reachable start
| reachable_event (ev : event) (s s' : state) :
    reachable s -> handle_event ev s = Ok s' -> reachable s'
| reachable_frame (evs : list event) (s s' : state) :
    reachable s -> running s = true -> frame evs s = Ok s' -> reachable s'.

(** A press of the primary button away from the reset control, and its
    release. *)
Definition press : event := MOUSEBUTTONDOWN 1 (200, 200)%Z.
Definition release : event := MOUSEBUTTONUP 1 (200, 200)%Z.

(** "[z] is [v] rounded": [z] is an integer nearest to [v], whatever the
    rule for ties. *)
Definition nearest_integer (v : R) (z : Z) : Prop :=
  Rabs (IZR z - v) <= 1 / 2.

(** ** Notions used in the further properties *)

(** A body without mass, and a store that holds it behind [body_A]. *)
Definition body_massless : Body.t :=
  Body.init 5000 0 0 0 0 2 (0, 0, 255)%Z "M".

Definition with_massless : state :=
  mkState [body_A; body_massless] 0 0 false false None false true.

(** [body_A] with a neighbour [500] m away, inside the distance floor. *)
Definition close_pair : state :=
  mkState [body_A; body_at 500] 0 0 false false None false true.

(** What a step keeps of a body: mass, radius, colour and name. *)
Definition same_identity (b b' : Body.t) : Prop :=
  Body.mass b' = Body.mass b /\ Body.radius b' = Body.radius b /\
  Body.color b' = Body.color b /\ Body.name b' = Body.name b.

(** The body built for a record of [planets_data], as far as the record
    fixes it. *)
Definition identity_of (d : orbit) (b : Body.t) : Prop :=
  Body.mass b = o_mass d /\ Body.radius b = o_radius d /\
  Body.color b = o_color d /\ Body.name b = o_name d.

(** How often the key [k] occurs in a run of key presses. *)
Definition key_eqb (k k' : key) : bool :=
  match k, k' with
  | K_z, K_z | K_LEFT, K_LEFT | K_RIGHT, K_RIGHT
  | K_UP, K_UP | K_DOWN, K_DOWN | K_other, K_other => true
  | _, _ => false
  end.

Fixpoint presses (k : key) (ks : list key) : Z :=
  match ks with
  | [] => 0
  | k' :: ks' => ((if key_eqb k k' then 1 else 0) + presses k ks')%Z
  end.

(** [two_bodies] in the middle of a drag that began at [(200, 200)]. *)
Definition dragging : state :=
  mkState [body_A; body_B] 0 0 false true (Some (200, 200)%Z) false true.

(** The label [Body.draw] puts next to a body: the name, the distance to
    [bodies[0]] in astronomical units and the point the label is centred
    at.  Turning them into text is the renderer's part. *)
Record label : Type := mkLabel
  { label_name : string; label_dist : R; label_center : Z * Z }.

(** The label part of [Body.draw]: the label is drawn when the pointer is
    less than [30] pixels from the point the body is drawn at. *)
Definition draw_label (s : state) (b : Body.t) (mouse_pos : Z * Z)
    : result (option label) :=
  let sx := screen_x s (Body.x b) in
  let sy := screen_y s (Body.y b) in
  let* mouse_distance :=
    math_sqrt (IZR ((mouse_pos.1 - sx) ^ 2 + (mouse_pos.2 - sy) ^ 2)) in
  if Rlt_dec mouse_distance 30 then
    let* sun := match bodies s !! 0%nat with
                | Some b0 => Ok b0
                | None => Raise IndexError
                end in
    let* d := math_sqrt ((Body.x b - Body.x sun) ^ 2
                         + (Body.y b - Body.y sun) ^ 2) in
    let* dist := truediv d AU in
    Ok (Some (mkLabel (Body.name b) dist
                (sx, (sy - Body.radius b - 15)%Z)))
  else Ok None.

(** What the motion of a body depends on: position, velocity and mass. *)
Definition same_physics (b b' : Body.t) : Prop :=
  Body.x b' = Body.x b /\ Body.y b' = Body.y b /\
  Body.vx b' = Body.vx b /\ Body.vy b' = Body.vy b /\
  Body.mass b' = Body.mass b.

(** [two_bodies] seen zoomed in, with the camera moved, in the middle of
    a drag and with the trail-reset flag up. *)
Definition two_bodies_other_view : state :=
  mkState [body_A; body_B] 120 (-40) true true (Some (5, 5)%Z) true true.

(** ** The force pass in binary64

    The pass of the force loop once more, now on the floats the program
    runs on: the operations are the IEEE 754 binary64 ones, each rounding
    its result, and [v ** 2] raises [OverflowError] when a finite [v] has
    a square that is too large.  (The [0] of the sums and of the Sun's
    coordinates is an [int] in the program; it enters the float operations
    as [0.0].)  This is the reading for statements that compare two
    separately rounded results. *)

Module B64.

Import PrimFloat.
Local Open Scope float_scope.
Local Set Warnings "-inexact-float".

Record body : Type := mk { x : float; y : float; mass : float }.

Inductive outcome : Type :=
| Sums (fx fy : float)
| OverflowError.

Definition G : float := 6.6743e-11.

(** [v ** 2]. *)
Definition square (v : float) : option float :=
  let p := v * v in
  if is_infinity p && negb (is_infinity v) then None else Some p.

Definition accumulate (self other : body) (fx fy : float) : outcome :=
  let dx := x other - x self in
  let dy := y other - y self in
  match square dx, square dy with
  | Some dx2, Some dy2 =>
      let r := sqrt (dx2 + dy2) in
      if 1e3 <? r then
        match square r with
        | Some r2 =>
            let f := G * mass self * mass other / r2 in
            Sums (fx + f * dx / r) (fy + f * dy / r)
        | None => OverflowError
        end
      else Sums fx fy
  | _, _ => OverflowError
  end.

(** The distance [r] the pass computes, when it gets that far. *)
Definition separation (self other : body) : option float :=
  let dx := x other - x self in
  let dy := y other - y self in
  match square dx, square dy with
  | Some dx2, Some dy2 => Some (sqrt (dx2 + dy2))
  | _, _ => None
  end.

(** The Sun and the Earth as the program starts them. *)
Definition sun : body := mk 0 0 1.989e30.
Definition earth : body := mk (1.496e11 * (1 - 0.0167)) 0 5.972e24.

(** The forces the two passes compute for the Sun and the Earth, in
    newton, and the sum of the two. *)
Definition force_on_sun : float := 3.6637433271177305e+22.
Definition force_on_earth : float := -3.6637433271177301e+22.
Definition imbalance : float := 4194304.

(** The distance floor and the zero the sums start from. *)
Definition floor : float := 1e3.
Definition zero : float := 0.

(** Two bodies [500] m apart, inside the distance floor, and two bodies
    [1e200] m apart, whose squared distance is no float. *)
Definition near_a : body := mk 0 0 1e15.
Definition near_b : body := mk 500 0 1e15.
Definition near_r : float := 500.
Definition far_a : body := mk 0 0 1e15.
Definition far_b : body := mk 1e200 0 1e15.

(** Two values of the binary64 format that differ at most in sign. *)
Definition up_to_sign (u v : SpecFloat.spec_float) : Prop :=
  u = v \/ u = SpecFloat.SFopp v.

End B64.

(** The start state after a press of the primary button away from the
    reset control: the program is panning. *)
Definition pressed : state :=
  set_last_mouse_pos (set_panning start true) (Some (200, 200)%Z).

(** A body off the axes, [5000] m from [body_A]. *)
Definition body_off_axis : Body.t :=
  Body.init 3000 4000 0 0 1e15 2 (0, 0, 255)%Z "C".

(** * Properties *)

(** Reads the fields of the sample bodies without touching the numerals. *)
Ltac sample_fields :=
  cbv [body_A body_B body_at Body.init
       Body.x Body.y Body.vx Body.vy Body.mass Body.trail].

(** ** The primitives *)

Lemma truediv_ok (x y : R) : y <> 0 -> truediv x y = Ok (x / y).
Proof.
  intros Hy. unfold truediv. destruct (Req_dec_T y 0); [contradiction | reflexivity].
Qed.

Lemma truediv_zero (x : R) : truediv x 0 = Raise ZeroDivisionError.
Proof.
  unfold truediv. destruct (Req_dec_T 0 0); [reflexivity | contradiction].
Qed.

Lemma math_sqrt_ok (x : R) : 0 <= x -> math_sqrt x = Ok (sqrt x).
Proof.
  intros Hx. unfold math_sqrt. destruct (Rlt_dec x 0); [lra | reflexivity].
Qed.

(** [int] is the integer between [0] and [x] that is nearest to [x]. *)
Lemma int_nonneg (x : R) :
  0 <= x -> IZR (int x) <= x < IZR (int x) + 1.
Proof.
  intros Hx. unfold int. destruct (Rle_dec 0 x); [| contradiction].
  destruct (base_Int_part x). lra.
Qed.

Lemma int_neg (x : R) :
  x < 0 -> x <= IZR (int x) < x + 1.
Proof.
  intros Hx. unfold int. destruct (Rle_dec 0 x); [lra |].
  destruct (base_Int_part (- x)). rewrite opp_IZR. lra.
Qed.

Lemma int_unique_nonneg (x : R) (z : Z) :
  0 <= x -> IZR z <= x < IZR z + 1 -> int x = z.
Proof.
  intros Hx Hz. unfold int. destruct (Rle_dec 0 x); [| contradiction].
  symmetry. apply Int_part_spec. lra.
Qed.

Lemma int_unique_neg (x : R) (z : Z) :
  x < 0 -> x <= IZR z < x + 1 -> int x = z.
Proof.
  intros Hx Hz. unfold int. destruct (Rle_dec 0 x); [lra |].
  assert ((- z)%Z = Int_part (- x)) as <-.
  { apply Int_part_spec. rewrite opp_IZR. lra. }
  lia.
Qed.

Lemma sum_squares_nonneg (a b : R) : 0 <= a ^ 2 + b ^ 2.
Proof. nra. Qed.

Lemma separation_nonneg (a b : Body.t) : 0 <= separation a b.
Proof. apply sqrt_pos. Qed.

Lemma separation_sym (a b : Body.t) : separation a b = separation b a.
Proof. unfold separation. f_equal. ring. Qed.

Lemma separation_sqr (a b : Body.t) :
  separation a b ^ 2 = (Body.x b - Body.x a) ^ 2 + (Body.y b - Body.y a) ^ 2.
Proof.
  unfold separation. rewrite <- Rsqr_pow2. apply Rsqr_sqrt, sum_squares_nonneg.
Qed.

(** ** The force pass *)

Section Accumulate.

Variables self other : Body.t.

Let dx : R := Body.x other - Body.x self.
Let dy : R := Body.y other - Body.y self.
Let r : R := separation self other.
Let F : R := G * Body.mass self * Body.mass other / r ^ 2.

Lemma accumulate_with_near (div : R -> R -> result R) (f : R * R) :
  r <= 1e3 -> accumulate_with div self other f = Ok f.
Proof.
  intros Hr. unfold accumulate_with.
  rewrite math_sqrt_ok by apply sum_squares_nonneg. cbn [bind].
  fold (separation self other). fold r.
  destruct (Rgt_dec r 1e3); [lra |]. destruct f; reflexivity.
Qed.

Lemma accumulate_with_far (div : R -> R -> result R) (f : R * R) :
  (forall n d : R, d > 1e3 -> div n d = truediv n d) ->
  r > 1e3 ->
  accumulate_with div self other f = Ok (f.1 + F * dx / r, f.2 + F * dy / r).
Proof.
  intros Hdiv Hr. unfold accumulate_with.
  rewrite math_sqrt_ok by apply sum_squares_nonneg. cbn [bind].
  fold (separation self other). fold r. fold dx. fold dy.
  destruct (Rgt_dec r 1e3); [| contradiction].
  assert (r ^ 2 > 1e3) by nra.
  rewrite Hdiv, truediv_ok by nra. cbn [bind].
  rewrite !Hdiv, !truediv_ok by lra. reflexivity.
Qed.

Lemma accumulate_near (f : R * R) :
  r <= 1e3 -> accumulate self other f = Ok f.
Proof. apply accumulate_with_near. Qed.

Lemma accumulate_far (f : R * R) :
  r > 1e3 ->
  accumulate self other f = Ok (f.1 + F * dx / r, f.2 + F * dy / r).
Proof. apply accumulate_with_far. reflexivity. Qed.

(** The pass never raises: it adds the pair's force to the sums. *)
Lemma accumulate_total (f : R * R) :
  exists c : R * R,
    pair_force self other = Ok c /\
    accumulate self other f = Ok (f.1 + c.1, f.2 + c.2).
Proof.
  unfold pair_force. destruct (Rle_lt_dec r 1e3) as [Hr | Hr].
  - exists (0, 0). rewrite !accumulate_near by assumption.
    split; [reflexivity |]. destruct f; cbn. f_equal; f_equal; lra.
  - exists (F * dx / r, F * dy / r). rewrite !accumulate_far by lra.
    split; [| reflexivity]. cbn. f_equal; f_equal; lra.
Qed.

Lemma force_strength_pos :
  0 < Body.mass self -> 0 < Body.mass other -> r > 1e3 -> 0 < F.
Proof.
  intros Hs Ho Hr. unfold F.
  apply Rdiv_lt_0_compat; [| nra].
  assert (0 < G) by (unfold G; lra).
  apply Rmult_lt_0_compat; [apply Rmult_lt_0_compat |]; assumption.
Qed.

Lemma force_magnitude :
  r > 1e3 -> 0 <= F -> magnitude (F * dx / r, F * dy / r) = F.
Proof.
  intros Hr HF. unfold magnitude. cbn [fst snd].
  replace ((F * dx / r) ^ 2 + (F * dy / r) ^ 2) with (F ^ 2).
  - apply sqrt_pow2, HF.
  - assert (Hsq : r ^ 2 = dx ^ 2 + dy ^ 2) by apply separation_sqr.
    field_simplify_eq; [| lra]. rewrite Hsq. ring.
Qed.

End Accumulate.

(** ** The force loop and the step *)

Lemma force_loop_total (i : nat) (self : Body.t) (others : list Body.t) :
  forall (j : nat) (f : R * R),
    exists f' : R * R, force_loop i self j others f = Ok f'.
Proof.
  induction others as [| other others IH]; intros j f; cbn [force_loop].
  - exists f. reflexivity.
  - destruct (j =? i)%nat; [apply IH |].
    destruct (accumulate_total self other f) as (c & _ & ->). cbn [bind].
    apply IH.
Qed.

Lemma update_position_ok (i : nat) (s : state) (self : Body.t) :
  bodies s !! i = Some self ->
  Body.mass self <> 0 ->
  exists f : R * R,
    force_loop i self 0 (bodies s) (0, 0) = Ok f /\
    update_position i s = Ok (set_bodies s (<[i := stepped s self f]> (bodies s))).
Proof.
  intros Hi Hm.
  destruct (force_loop_total i self (bodies s) 0%nat (0, 0)) as [f Hf].
  exists f. split; [exact Hf |].
  unfold update_position. rewrite Hi. cbn [bind]. rewrite Hf. cbn [bind].
  rewrite !truediv_ok by exact Hm. reflexivity.
Qed.

(** A massless body makes the step raise: the quotient [fx / self.mass]
    is a float division by zero. *)
Lemma update_position_massless (i : nat) (s : state) (self : Body.t) :
  bodies s !! i = Some self ->
  Body.mass self = 0 ->
  update_position i s = Raise ZeroDivisionError.
Proof.
  intros Hi Hm.
  destruct (force_loop_total i self (bodies s) 0%nat (0, 0)) as [f Hf].
  unfold update_position. rewrite Hi. cbn [bind]. rewrite Hf. cbn [bind].
  rewrite Hm, truediv_zero. reflexivity.
Qed.

(** *** C4 *)

(** C4.  One call of [update_position] on a body of non-zero mass first
    turns the sums of the force loop, taken on the store as it is before
    the call, into the acceleration [a = f / mass], then sets
    [v' = v + a * DT] and after that [x' = x + v' * DT]: the position moves
    with the new velocity, so it differs from the explicit Euler position
    [x + v * DT] by [a * DT * DT]. *)
Theorem C4_semi_implicit_euler (i : nat) (s : state) (self : Body.t) :
  bodies s !! i = Some self ->
  Body.mass self <> 0 ->
  exists (f : R * R) (s' : state) (self' : Body.t),
    force_loop i self 0 (bodies s) (0, 0) = Ok f /\
    update_position i s = Ok s' /\
    bodies s' !! i = Some self' /\
    let ax := f.1 / Body.mass self in
    let ay := f.2 / Body.mass self in
    Body.vx self' = Body.vx self + ax * DT /\
    Body.vy self' = Body.vy self + ay * DT /\
    Body.x self' = Body.x self + Body.vx self' * DT /\
    Body.y self' = Body.y self + Body.vy self' * DT /\
    Body.x self' = Body.x self + Body.vx self * DT + ax * DT * DT /\
    Body.y self' = Body.y self + Body.vy self * DT + ay * DT * DT /\
    DT = 3600.
Proof.
  intros Hi Hm.
  destruct (update_position_ok i s self Hi Hm) as (f & Hf & Hup).
  exists f, (set_bodies s (<[i := stepped s self f]> (bodies s))), (stepped s self f).
  split; [exact Hf |]. split; [exact Hup |].
  split.
  { cbn [bodies set_bodies]. apply list_lookup_insert_eq.
    eapply lookup_lt_Some, Hi. }
  cbn. repeat split; try reflexivity; ring.
Qed.

Lemma C4_semi_implicit_euler_witness :
  bodies two_bodies !! 0%nat = Some body_A /\
  Body.mass body_A <> 0 /\
  exists (f : R * R) (s' : state) (self' : Body.t),
    force_loop 0 body_A 0 (bodies two_bodies) (0, 0) = Ok f /\
    update_position 0 two_bodies = Ok s' /\
    bodies s' !! 0%nat = Some self' /\
    let ax := f.1 / Body.mass body_A in
    let ay := f.2 / Body.mass body_A in
    Body.vx self' = Body.vx body_A + ax * DT /\
    Body.vy self' = Body.vy body_A + ay * DT /\
    Body.x self' = Body.x body_A + Body.vx self' * DT /\
    Body.y self' = Body.y body_A + Body.vy self' * DT /\
    Body.x self' = Body.x body_A + Body.vx body_A * DT + ax * DT * DT /\
    Body.y self' = Body.y body_A + Body.vy body_A * DT + ay * DT * DT /\
    DT = 3600.
Proof.
  assert (Hm : Body.mass body_A <> 0) by (sample_fields; lra).
  split; [reflexivity |]. split; [exact Hm |].
  exact (C4_semi_implicit_euler 0 two_bodies body_A eq_refl Hm).
Defined.

(** ** The distance floor and the symmetry of the pair force *)

Lemma separation_on_axis (a b : Body.t) :
  Body.y a = Body.y b -> Body.x a <= Body.x b ->
  separation a b = Body.x b - Body.x a.
Proof.
  intros Hy Hx. unfold separation. rewrite Hy.
  replace ((Body.x b - Body.x a) ^ 2 + (Body.y b - Body.y b) ^ 2)
    with ((Body.x b - Body.x a) ^ 2) by ring.
  apply sqrt_pow2. lra.
Qed.

Lemma pair_force_near (self other : Body.t) :
  separation self other <= 1e3 -> pair_force self other = Ok (0, 0).
Proof. intros Hr. unfold pair_force. apply accumulate_near, Hr. Qed.

Lemma pair_force_far (self other : Body.t) :
  separation self other > 1e3 ->
  pair_force self other =
    Ok (G * Body.mass self * Body.mass other / separation self other ^ 2
          * (Body.x other - Body.x self) / separation self other,
        G * Body.mass self * Body.mass other / separation self other ^ 2
          * (Body.y other - Body.y self) / separation self other).
Proof.
  intros Hr. unfold pair_force. rewrite accumulate_far by exact Hr.
  cbn [fst snd]. rewrite !Rplus_0_l. reflexivity.
Qed.

(** *** C5 *)

(** C5.  For two bodies at separation [r], the pass of the force loop
    leaves the sums as they are when [r <= 1000] (the pair contributes
    zero force, also at [r = 1000] exactly); when [r > 1000] it adds the
    force of strength [F = G * m1 * m2 / r ^ 2] split along the displacement,
    [(F * dx / r, F * dy / r)], whose length is [F] and is positive for
    positive masses.  The pass never raises, and the divisions it evaluates
    all have a divisor above [1000]: replacing the division by any
    operation that agrees with it on divisors above [1000] gives the same
    pass. *)
Theorem C5_distance_floor (self other : Body.t) (f : R * R) :
  let dx := Body.x other - Body.x self in
  let dy := Body.y other - Body.y self in
  let r := separation self other in
  let F := G * Body.mass self * Body.mass other / r ^ 2 in
  (r <= 1000 ->
     accumulate self other f = Ok f /\
     pair_force self other = Ok (0, 0)) /\
  (r > 1000 ->
     accumulate self other f = Ok (f.1 + F * dx / r, f.2 + F * dy / r) /\
     pair_force self other = Ok (F * dx / r, F * dy / r) /\
     (0 < Body.mass self -> 0 < Body.mass other ->
        0 < F /\
        magnitude (F * dx / r, F * dy / r) = F /\
        (F * dx / r, F * dy / r) <> (0, 0))) /\
  (exists f' : R * R, accumulate self other f = Ok f') /\
  (forall div : R -> R -> result R,
     (forall n d : R, d > 1000 -> div n d = truediv n d) ->
     accumulate_with div self other f = accumulate self other f).
Proof.
  intros dx dy r F. repeat split.
  - apply accumulate_near. fold r. lra.
  - apply pair_force_near. fold r. lra.
  - apply accumulate_far. fold r. lra.
  - apply pair_force_far. fold r. lra.
  - apply force_strength_pos; [assumption | assumption | fold r; lra].
  - apply force_magnitude; [fold r; lra |].
    left. apply force_strength_pos; [assumption | assumption | fold r; lra].
  - intros Heq.
    assert (HF : 0 < F)
      by (apply force_strength_pos; [assumption | assumption | fold r; lra]).
    assert (Hmag : magnitude (F * dx / r, F * dy / r) = F)
      by (apply force_magnitude; [fold r; lra | left; exact HF]).
    rewrite Heq in Hmag. unfold magnitude in Hmag. cbn [fst snd] in Hmag.
    replace (0 ^ 2 + 0 ^ 2) with 0 in Hmag by ring.
    rewrite sqrt_0 in Hmag. lra.
  - destruct (accumulate_total self other f) as (c & _ & Hc). eauto.
  - intros div Hdiv. destruct (Rle_lt_dec r 1e3) as [Hr | Hr].
    + rewrite accumulate_with_near by exact Hr.
      symmetry. apply accumulate_near, Hr.
    + unfold r in Hr. rewrite accumulate_with_far.
      * symmetry. apply accumulate_far. lra.
      * intros n d Hd. apply Hdiv. lra.
      * lra.
Qed.

(** At exactly [1000] m the pair contributes nothing; at [1000.001] m it
    contributes a force of positive length. *)
Lemma C5_distance_floor_witness :
  (separation body_A (body_at 1000) <= 1000 /\
   pair_force body_A (body_at 1000) = Ok (0, 0)) /\
  (separation body_A (body_at 1000.001) > 1000 /\
   0 < Body.mass body_A /\ 0 < Body.mass (body_at 1000.001) /\
   0 < G * Body.mass body_A * Body.mass (body_at 1000.001)
         / separation body_A (body_at 1000.001) ^ 2).
Proof.
  assert (H1 : separation body_A (body_at 1000) = 1000).
  { rewrite separation_on_axis; sample_fields; lra. }
  assert (H2 : separation body_A (body_at 1000.001) = 1000.001).
  { rewrite separation_on_axis; sample_fields; lra. }
  assert (Hle : separation body_A (body_at 1000) <= 1000) by lra.
  assert (Hgt : separation body_A (body_at 1000.001) > 1000) by lra.
  assert (HmA : 0 < Body.mass body_A) by (sample_fields; lra).
  assert (HmB : 0 < Body.mass (body_at 1000.001)) by (sample_fields; lra).
  split.
  - split; [exact Hle |].
    exact (proj2 (proj1 (C5_distance_floor body_A (body_at 1000) (0, 0)) Hle)).
  - split; [exact Hgt |]. split; [exact HmA |]. split; [exact HmB |].
    exact (proj1 (proj2 (proj2
      (proj1 (proj2 (C5_distance_floor body_A (body_at 1000.001) (0, 0))) Hgt))
      HmA HmB)).
Defined.

(** *** C9 *)

(** Subtraction in binary64 is antisymmetric up to the sign of a zero
    result, so the squares of [a - b] and of [b - a] are the same float:
    read off the specification of the format. *)
Module B64_facts.

Import PrimFloat SpecFloat FloatOps FloatAxioms.

Section Format.

Variables prec emax : Z.

Lemma binary_round_aux_opp (s : bool) (m e : Z) (l : location) :
  binary_round_aux prec emax (negb s) m e l =
    SFopp (binary_round_aux prec emax s m e l).
Proof.
  unfold binary_round_aux.
  destruct (shr_fexp prec emax m e l) as [mrs e'].
  destruct (shr_fexp prec emax _ e' loc_Exact) as [mrs' e''].
  destruct (shr_m mrs'); [reflexivity | | reflexivity].
  destruct (e'' <=? emax - prec)%Z; reflexivity.
Qed.

Lemma binary_normalize_opp (m e : Z) :
  B64.up_to_sign (binary_normalize prec emax (- m) e false)
    (binary_normalize prec emax m e false).
Proof.
  destruct m as [| p | p].
  - left. reflexivity.
  - right.
    change (binary_round prec emax true p e =
            SFopp (binary_round prec emax false p e)).
    unfold binary_round.
    destruct (shl_align p e _) as [mz ez].
    apply (binary_round_aux_opp false).
  - right.
    change (binary_round prec emax false p e =
            SFopp (binary_round prec emax true p e)).
    unfold binary_round.
    destruct (shl_align p e _) as [mz ez].
    rewrite (binary_round_aux_opp false).
    destruct (binary_round_aux prec emax false (Z.pos mz) ez loc_Exact)
      as [s | s | | s m' e'];
      cbn [SFopp]; rewrite ?negb_involutive; reflexivity.
Qed.

Lemma SFsub_swap (u v : spec_float) :
  B64.up_to_sign (SFsub prec emax v u) (SFsub prec emax u v).
Proof.
  destruct u as [su | su | | su mu eu], v as [sv | sv | | sv mv ev];
    cbn [SFsub];
    try (left; reflexivity);
    try (right; cbn [SFopp]; rewrite ?negb_involutive; reflexivity);
    try (destruct su, sv; (left; reflexivity) || (right; reflexivity)).
  rewrite (Z.min_comm ev eu).
  match goal with
  | |- B64.up_to_sign (binary_normalize _ _ (?b - ?a) _ _) _ =>
      replace (b - a)%Z with (- (a - b))%Z by lia
  end.
  apply binary_normalize_opp.
Qed.

Lemma SFmul_up_to_sign (u v : spec_float) :
  B64.up_to_sign u v -> SFmul prec emax u u = SFmul prec emax v v.
Proof.
  intros [-> | ->]; [reflexivity |].
  destruct v as [s | s | | s m e]; cbn [SFopp SFmul];
    try reflexivity; destruct s; reflexivity.
Qed.

Lemma SFabs_up_to_sign (u v : spec_float) :
  B64.up_to_sign u v -> SFabs u = SFabs v.
Proof.
  intros [-> | ->]; [reflexivity |]. destruct v; reflexivity.
Qed.

End Format.

Local Open Scope float_scope.

Lemma sub_swap (a b : float) :
  B64.up_to_sign (Prim2SF (a - b)) (Prim2SF (b - a)).
Proof. rewrite !sub_spec. apply SFsub_swap. Qed.

Lemma abs_swap (a b : float) : abs (a - b) = abs (b - a).
Proof.
  apply Prim2SF_inj. rewrite !abs_spec.
  apply SFabs_up_to_sign, sub_swap.
Qed.

Lemma square_swap (a b : float) : B64.square (a - b) = B64.square (b - a).
Proof.
  unfold B64.square, is_infinity. rewrite (abs_swap a b).
  replace ((a - b) * (a - b)) with ((b - a) * (b - a)); [reflexivity |].
  apply Prim2SF_inj. rewrite !mul_spec.
  apply SFmul_up_to_sign, sub_swap.
Qed.

Lemma separation_swap (a b : B64.body) :
  B64.separation b a = B64.separation a b.
Proof.
  unfold B64.separation.
  rewrite (square_swap (B64.x a) (B64.x b)), (square_swap (B64.y a) (B64.y b)).
  reflexivity.
Qed.

Lemma accumulate_skipped (self other : B64.body) (fx fy r : float) :
  B64.separation self other = Some r ->
  (B64.floor <? r) = false ->
  B64.accumulate self other fx fy = B64.Sums fx fy.
Proof.
  unfold B64.separation, B64.accumulate, B64.floor.
  destruct (B64.square (B64.x other - B64.x self)) as [dx2 |];
    [| discriminate].
  destruct (B64.square (B64.y other - B64.y self)) as [dy2 |];
    [| discriminate].
  intros [= <-] ->. reflexivity.
Qed.

Lemma accumulate_overflow (self other : B64.body) (fx fy : float) :
  B64.separation self other = None ->
  B64.accumulate self other fx fy = B64.OverflowError.
Proof.
  unfold B64.separation, B64.accumulate.
  destruct (B64.square (B64.x other - B64.x self)) as [dx2 |];
    [| reflexivity].
  destruct (B64.square (B64.y other - B64.y self)) as [dy2 |];
    [discriminate | reflexivity].
Qed.

End B64_facts.

(** The Sun and the Earth as the program starts them, in binary64: the
    pass for the Sun adds [3.6637433271177305e22] N and the pass for the
    Earth adds [-3.6637433271177301e22] N.  The two are [4194304] N short
    of cancelling: their magnitudes are not the same float. *)
Lemma C9_binary64_counterexample :
  B64.separation B64.sun B64.earth = B64.separation B64.earth B64.sun /\
  (exists r : PrimFloat.float,
     B64.separation B64.sun B64.earth = Some r /\
     PrimFloat.ltb B64.floor r = true) /\
  B64.accumulate B64.sun B64.earth B64.zero B64.zero =
    B64.Sums B64.force_on_sun B64.zero /\
  B64.accumulate B64.earth B64.sun B64.zero B64.zero =
    B64.Sums B64.force_on_earth B64.zero /\
  PrimFloat.add B64.force_on_sun B64.force_on_earth = B64.imbalance /\
  PrimFloat.eqb (PrimFloat.abs B64.force_on_sun)
    (PrimFloat.abs B64.force_on_earth) = false.
Proof.
  split; [vm_compute; reflexivity |].
  split; [eexists; split; vm_compute; reflexivity |].
  repeat split; vm_compute; reflexivity.
Qed.

(** C9, as the program has it.  Read in exact arithmetic, the formula of
    the force loop obeys Newton's third law: for two bodies more than
    [1000] m apart the force it gives on the first due to the second and
    the force it gives on the second due to the first are opposite vectors
    of the same length.  In the binary64 arithmetic of the program both
    passes compute the same separation [r], bit for bit, so a pair is
    skipped in one direction exactly when it is skipped in the other (and
    [**] overflows in one exactly when it does in the other). *)
Theorem C9_newton_third_law :
  (forall a b : Body.t,
     separation a b > 1000 ->
     exists fx fy : R,
       pair_force a b = Ok (fx, fy) /\
       pair_force b a = Ok (- fx, - fy) /\
       magnitude (- fx, - fy) = magnitude (fx, fy)) /\
  (forall a b : B64.body, B64.separation b a = B64.separation a b) /\
  (forall (self other : B64.body) (fx fy r : PrimFloat.float),
     B64.separation self other = Some r ->
     PrimFloat.ltb B64.floor r = false ->
     B64.accumulate self other fx fy = B64.Sums fx fy /\
     B64.accumulate other self fx fy = B64.Sums fx fy) /\
  (forall (self other : B64.body) (fx fy : PrimFloat.float),
     B64.separation self other = None ->
     B64.accumulate self other fx fy = B64.OverflowError /\
     B64.accumulate other self fx fy = B64.OverflowError).
Proof.
  split; [| split; [| split]].
  - intros a b Hr.
    assert (Hr' : separation b a > 1e3) by (rewrite separation_sym; lra).
    eexists _, _. split; [apply pair_force_far; lra |]. split.
    + rewrite pair_force_far by exact Hr'.
      rewrite (separation_sym b a). f_equal. f_equal; field; lra.
    + unfold magnitude. cbn [fst snd]. f_equal. ring.
  - exact B64_facts.separation_swap.
  - intros self other fx fy r Hsep Hfloor. split.
    + exact (B64_facts.accumulate_skipped self other fx fy r Hsep Hfloor).
    + apply (B64_facts.accumulate_skipped other self fx fy r); [| exact Hfloor].
      rewrite B64_facts.separation_swap. exact Hsep.
  - intros self other fx fy Hsep. split.
    + exact (B64_facts.accumulate_overflow self other fx fy Hsep).
    + apply B64_facts.accumulate_overflow.
      rewrite B64_facts.separation_swap. exact Hsep.
Qed.

Lemma C9_newton_third_law_witness :
  (separation body_A body_B > 1000 /\
   exists fx fy : R,
     pair_force body_A body_B = Ok (fx, fy) /\
     pair_force body_B body_A = Ok (- fx, - fy) /\
     magnitude (- fx, - fy) = magnitude (fx, fy)) /\
  (B64.separation B64.near_a B64.near_b = Some B64.near_r /\
   PrimFloat.ltb B64.floor B64.near_r = false /\
   B64.accumulate B64.near_a B64.near_b B64.zero B64.zero =
     B64.Sums B64.zero B64.zero /\
   B64.accumulate B64.near_b B64.near_a B64.zero B64.zero =
     B64.Sums B64.zero B64.zero) /\
  (B64.separation B64.far_a B64.far_b = None /\
   B64.accumulate B64.far_a B64.far_b B64.zero B64.zero = B64.OverflowError /\
   B64.accumulate B64.far_b B64.far_a B64.zero B64.zero = B64.OverflowError).
Proof.
  assert (Hr : separation body_A body_B > 1000).
  { rewrite separation_on_axis; sample_fields; lra. }
  assert (Hnear : B64.separation B64.near_a B64.near_b = Some B64.near_r)
    by (vm_compute; reflexivity).
  assert (Hfloor : PrimFloat.ltb B64.floor B64.near_r = false)
    by (vm_compute; reflexivity).
  assert (Hfar : B64.separation B64.far_a B64.far_b = None)
    by (vm_compute; reflexivity).
  destruct C9_newton_third_law as (Hreal & _ & Hskip & Hover).
  split; [split; [exact Hr | exact (Hreal body_A body_B Hr)] |].
  split.
  - split; [exact Hnear |]. split; [exact Hfloor |].
    exact (Hskip B64.near_a B64.near_b B64.zero B64.zero B64.near_r
             Hnear Hfloor).
  - split; [exact Hfar |].
    exact (Hover B64.far_a B64.far_b B64.zero B64.zero Hfar).
Defined.

(** ** The orbit initializer *)

Lemma get_initial_conditions_central (e mass : R) (radius : Z)
    (color : Z * Z * Z) (name : string) (central_mass : R) :
  get_initial_conditions 0 e mass radius color name central_mass =
    Ok (Body.init 0 0 0 0 mass radius color name).
Proof.
  unfold get_initial_conditions.
  destruct (Req_dec_T 0 0); [reflexivity | contradiction].
Qed.

Lemma get_initial_conditions_perihelion (a e mass : R) (radius : Z)
    (color : Z * Z * Z) (name : string) (central_mass : R) :
  0 < a -> 0 <= e < 1 -> 0 <= central_mass ->
  get_initial_conditions a e mass radius color name central_mass =
    Ok (Body.init (a * (1 - e)) 0
          0 (sqrt (G * central_mass * (1 + e) / (a * (1 - e))))
          mass radius color name).
Proof.
  intros Ha He Hc. unfold get_initial_conditions.
  destruct (Req_dec_T a 0); [lra |].
  assert (Hr : 0 < a * (1 - e)) by nra.
  rewrite truediv_ok by lra. cbn [bind].
  rewrite math_sqrt_ok; [reflexivity |].
  apply Rmult_le_pos; [| left; apply Rinv_0_lt_compat, Hr].
  assert (0 < G) by (unfold G; lra).
  apply Rmult_le_pos; [apply Rmult_le_pos |]; lra.
Qed.

Lemma sqrt_between (q lo hi : R) :
  0 <= lo -> lo * lo < q < hi * hi -> 0 <= hi -> lo < sqrt q < hi.
Proof.
  intros Hlo [Hq1 Hq2] Hhi. split.
  - rewrite <- (sqrt_square lo Hlo) at 1.
    apply sqrt_lt_1_alt. nra.
  - rewrite <- (sqrt_square hi Hhi) at 1.
    apply sqrt_lt_1_alt. nra.
Qed.

Lemma earth_conditions :
  exists b : Body.t,
    earth = Ok b /\
    Body.x b = 1.4710168e11 /\ Body.y b = 0 /\
    Body.vx b = 0 /\ 30290 < Body.vy b < 30291.
Proof.
  unfold earth. eexists. split.
  - apply get_initial_conditions_perihelion; lra.
  - cbv [Body.init Body.x Body.y Body.vx Body.vy].
    split; [lra |]. split; [reflexivity |]. split; [reflexivity |].
    apply sqrt_between; [lra | | lra]. unfold G. lra.
Qed.

(** *** C3 *)

(** C3, as the program has it.  With [a = 0] the initializer returns a body
    at the origin with zero velocity.  With [a > 0], [0 <= e < 1],
    [mass > 0] and [central_mass > 0] it returns a body at
    [(a * (1 - e), 0)] with velocity
    [(0, sqrt (G * central_mass * (1 + e) / (a * (1 - e))))].  For the
    Earth ([a = 1.496e11], [e = 0.0167], central mass [1.989e30]) the
    position is [(1.4710168e11, 0)], approximately [(1.4711e11, 0)], and
    the speed lies between [30290] and [30291] m/s, approximately
    [3.029e4]. *)
Theorem C3_orbit_initializer :
  (forall (e mass : R) (radius : Z) (color : Z * Z * Z) (name : string)
          (central_mass : R),
     get_initial_conditions 0 e mass radius color name central_mass =
       Ok (Body.init 0 0 0 0 mass radius color name)) /\
  (forall (a e mass : R) (radius : Z) (color : Z * Z * Z) (name : string)
          (central_mass : R),
     0 < a -> 0 <= e < 1 -> 0 < mass -> 0 < central_mass ->
     get_initial_conditions a e mass radius color name central_mass =
       Ok (Body.init (a * (1 - e)) 0
             0 (sqrt (G * central_mass * (1 + e) / (a * (1 - e))))
             mass radius color name)) /\
  (exists b : Body.t,
     earth = Ok b /\
     Body.x b = 1.4710168e11 /\ Body.y b = 0 /\
     Body.vx b = 0 /\ 30290 < Body.vy b < 30291 /\
     approximately 1.4711e11 (Body.x b) /\
     approximately 3.029e4 (Body.vy b)).
Proof.
  split; [exact get_initial_conditions_central |].
  split.
  { intros a e mass radius color name central_mass Ha He _ Hc.
    apply get_initial_conditions_perihelion; [exact Ha | exact He | lra]. }
  destruct earth_conditions as (b & Hb & Hx & Hy & Hvx & Hvy).
  exists b. repeat split; try assumption; try lra.
  - unfold approximately. rewrite Hx.
    rewrite Rabs_left by lra. rewrite Rabs_right by lra. lra.
  - unfold approximately.
    rewrite (Rabs_right 3.029e4) by lra.
    apply Rabs_le. lra.
Qed.

Lemma C3_orbit_initializer_witness :
  0 < 1.496e11 /\ 0 <= 0.0167 < 1 /\ 0 < 5.972e24 /\ 0 < 1.989e30 /\
  earth =
    Ok (Body.init (1.496e11 * (1 - 0.0167)) 0
          0 (sqrt (G * 1.989e30 * (1 + 0.0167) / (1.496e11 * (1 - 0.0167))))
          5.972e24 4 (0, 100, 255)%Z "Earth").
Proof.
  assert (Ha : 0 < 1.496e11) by lra.
  assert (He : 0 <= 0.0167 < 1) by lra.
  assert (Hm : 0 < 5.972e24) by lra.
  assert (Hc : 0 < 1.989e30) by lra.
  split; [exact Ha |]. split; [exact He |]. split; [exact Hm |].
  split; [exact Hc |].
  exact (proj1 (proj2 C3_orbit_initializer)
           1.496e11 0.0167 5.972e24 4%Z (0, 100, 255)%Z "Earth" 1.989e30
           Ha He Hm Hc).
Defined.

(** The speed the initializer gives the Earth is not approximately
    [2.978e4] m/s: it exceeds that value by more than [510] m/s. *)
Lemma C3_speed_counterexample :
  exists b : Body.t,
    earth = Ok b /\
    Body.vy b - 2.978e4 > 510 /\
    ~ approximately 2.978e4 (Body.vy b).
Proof.
  destruct earth_conditions as (b & Hb & _ & _ & _ & Hvy).
  exists b. split; [exact Hb |]. split; [lra |].
  unfold approximately. rewrite Rabs_right by lra.
  rewrite Rabs_right by lra. lra.
Qed.

(** ** Reset *)

Lemma comprehension_Forall2 {A B : Type} (f : A -> result B) (data : list A) :
  forall bs : list B,
    comprehension f data = Ok bs <-> Forall2 (fun d b => f d = Ok b) data bs.
Proof.
  induction data as [| d data IH]; intros bs; cbn [comprehension].
  - split.
    + intros [= <-]. constructor.
    + intros H. inversion H. reflexivity.
  - split.
    + destruct (f d) as [b |] eqn:Hd; cbn [bind]; [| discriminate].
      destruct (comprehension f data) as [bs' |] eqn:Hc; cbn [bind];
        [| discriminate].
      intros [= <-]. constructor; [exact Hd | apply IH; reflexivity].
    + intros H. inversion H as [| ? b ? bs' Hd Hrest]; subst.
      rewrite Hd. cbn [bind].
      apply IH in Hrest. rewrite Hrest. reflexivity.
Qed.

Lemma initial_body_ok (d : orbit) :
  o_a d = 0 \/ (0 < o_a d /\ 0 <= o_e d < 1) ->
  exists b : Body.t,
    initial_body d = Ok b /\ Body.trail b = [] /\ Body.mass b = o_mass d.
Proof.
  unfold initial_body. intros [Ha | [Ha He]].
  - rewrite Ha, get_initial_conditions_central. eauto.
  - rewrite get_initial_conditions_perihelion;
      [eauto | exact Ha | exact He | unfold default_central_mass; lra].
Qed.

Lemma planets_data_orbits :
  Forall (fun d => (o_a d = 0 \/ (0 < o_a d /\ 0 <= o_e d < 1)) /\ 0 < o_mass d)
    planets_data.
Proof.
  unfold planets_data.
  repeat (apply Forall_cons; split;
          [cbv [o_a o_e o_mass]; split; [(left; lra) || (right; lra) | lra] |]).
  apply Forall_nil. exact I.
Qed.

Lemma initial_bodies_exist :
  exists bs : list Body.t,
    comprehension initial_body planets_data = Ok bs /\
    Forall2 (fun d b => initial_body d = Ok b) planets_data bs /\
    Forall (fun b => Body.trail b = []) bs /\
    Forall (fun b => 0 < Body.mass b) bs.
Proof.
  assert (H : exists bs : list Body.t,
             Forall2 (fun d b => initial_body d = Ok b) planets_data bs /\
             Forall (fun b => Body.trail b = []) bs /\
             Forall (fun b => 0 < Body.mass b) bs).
  { induction planets_data_orbits as [| d ds [Hd Hm] _ IH].
    - exists []. repeat split; constructor.
    - destruct IH as (bs & H2 & Ht & Hpos).
      destruct (initial_body_ok d Hd) as (b & Hb & Htr & Hmass).
      exists (b :: bs). repeat split; constructor; try assumption.
      rewrite Hmass. exact Hm. }
  destruct H as (bs & H2 & Ht & Hpos). exists bs.
  split; [apply comprehension_Forall2, H2 |]. auto.
Qed.

Lemma reset_simulation_ok (s : state) (bs : list Body.t) :
  comprehension initial_body planets_data = Ok bs ->
  reset_simulation s = Ok (after_reset bs s).
Proof. intros Hbs. unfold reset_simulation. rewrite Hbs. reflexivity. Qed.

Lemma collidepoint_reset_click : collidepoint reset_button (20, 20)%Z = true.
Proof. reflexivity. Qed.

(** *** C8 *)

(** C8.  [reset_simulation] always returns; the state it returns has the
    bodies the initializer gives for the records of [planets_data], in
    that order and with empty trails, the camera at [(0, 0)] and the zoom
    flag cleared; running it again from that state returns that state
    unchanged.  The same holds for the reset command, a primary click on
    the reset control, which also raises the trail-reset signal. *)
Theorem C8_reset_idempotent (s : state) :
  exists s1 : state,
    reset_simulation s = Ok s1 /\
    reset_simulation s1 = Ok s1 /\
    Forall2 (fun d b => initial_body d = Ok b) planets_data (bodies s1) /\
    Forall (fun b => Body.trail b = []) (bodies s1) /\
    camera_x s1 = 0%Z /\ camera_y s1 = 0%Z /\ zoomed s1 = false /\
    forall pos : Z * Z,
      collidepoint reset_button pos = true ->
      exists s2 : state,
        handle_event (MOUSEBUTTONDOWN 1 pos) s = Ok s2 /\
        handle_event (MOUSEBUTTONDOWN 1 pos) s2 = Ok s2 /\
        s2 = set_trail_reset s1 true /\
        trail_reset s2 = true.
Proof.
  destruct initial_bodies_exist as (bs & Hbs & H2 & Htr & _).
  exists (after_reset bs s).
  split; [apply reset_simulation_ok, Hbs |].
  split; [apply (reset_simulation_ok (after_reset bs s)), Hbs |].
  split; [exact H2 |]. split; [exact Htr |].
  split; [reflexivity |]. split; [reflexivity |]. split; [reflexivity |].
  intros pos Hpos. exists (set_trail_reset (after_reset bs s) true).
  cbn [handle_event]. rewrite Hpos. cbn [Z.eqb Pos.eqb].
  rewrite !(reset_simulation_ok _ bs Hbs). cbn [bind].
  repeat split.
Qed.

Lemma C8_reset_idempotent_witness :
  collidepoint reset_button (20, 20)%Z = true /\
  exists s1 s2 : state,
    reset_simulation two_bodies = Ok s1 /\
    handle_event reset_click two_bodies = Ok s2 /\
    handle_event reset_click s2 = Ok s2 /\
    s2 = set_trail_reset s1 true.
Proof.
  split; [reflexivity |].
  destruct (C8_reset_idempotent two_bodies)
    as (s1 & H1 & _ & _ & _ & _ & _ & _ & Hclick).
  destruct (Hclick (20, 20)%Z eq_refl) as (s2 & Ha & Hb & Hc & _).
  exists s1, s2. auto.
Defined.

(** ** The body loop of a frame *)

Lemma set_bodies_set_bodies (s : state) (bs bs' : list Body.t) :
  set_bodies (set_bodies s bs) bs' = set_bodies s bs'.
Proof. reflexivity. Qed.

Lemma body_loop_cons (i : nat) (idx : list nat) (s : state) (self : Body.t) :
  bodies s !! i = Some self ->
  Body.mass self <> 0 ->
  exists f : R * R,
    force_loop i self 0 (bodies s) (0, 0) = Ok f /\
    body_loop (i :: idx) s =
      body_loop idx (set_bodies s (<[i := visited s self f]> (bodies s))).
Proof.
  intros Hi Hm.
  destruct (update_position_ok i s self Hi Hm) as (f & Hf & Hup).
  exists f. split; [exact Hf |].
  cbn [body_loop]. rewrite Hup. cbn [bind].
  unfold visited. change (trail_reset (set_bodies s _)) with (trail_reset s).
  destruct (trail_reset s); [| reflexivity].
  unfold clear_trail. cbn [bodies set_bodies].
  rewrite list_lookup_insert_eq by (eapply lookup_lt_Some, Hi).
  rewrite list_insert_insert_eq. reflexivity.
Qed.

Lemma body_loop_from (s : state) (m : nat) :
  Forall (fun b => Body.mass b <> 0) (bodies s) ->
  forall (k : nat) (cur : list Body.t),
    (k + m)%nat = length (bodies s) ->
    length cur = length (bodies s) ->
    drop k cur = drop k (bodies s) ->
    exists bs' : list Body.t,
      body_loop (seq k m) (set_bodies s cur) = Ok (set_bodies s bs') /\
      length bs' = length (bodies s) /\
      take k bs' = take k cur /\
      forall (i : nat) (self : Body.t),
        (k <= i)%nat -> bodies s !! i = Some self ->
        exists f : R * R,
          force_loop i self 0 (take i bs' ++ drop i (bodies s)) (0, 0) = Ok f /\
          bs' !! i = Some (visited s self f).
Proof.
  intros Hmass. induction m as [| m IH]; intros k cur Hk Hlen Hdrop.
  - exists cur. split; [reflexivity |]. split; [exact Hlen |].
    split; [reflexivity |].
    intros i self Hki Hi. apply lookup_lt_Some in Hi. lia.
  - assert (Hklt : (k < length (bodies s))%nat) by lia.
    destruct (lookup_lt_is_Some_2 (bodies s) k Hklt) as [self Hself].
    assert (Hcur : cur !! k = Some self).
    { rewrite <- Hself.
      rewrite <- (Nat.add_0_r k) at 1. rewrite <- lookup_drop, Hdrop.
      rewrite lookup_drop. f_equal. lia. }
    assert (Hm : Body.mass self <> 0)
      by exact (Forall_lookup_1 _ _ _ _ Hmass Hself).
    destruct (body_loop_cons k (seq (S k) m) (set_bodies s cur) self Hcur Hm)
      as (f & Hf & Hloop).
    cbn [bodies set_bodies] in Hf.
    change (visited (set_bodies s cur) self f) with (visited s self f) in Hloop.
    rewrite set_bodies_set_bodies in Hloop.
    change (bodies (set_bodies s cur)) with cur in Hloop.
    destruct (IH (S k) (<[k := visited s self f]> cur)) as (bs' & Hbs' & Hl & Htake & Hrest).
    { lia. }
    { rewrite length_insert. exact Hlen. }
    { rewrite drop_insert_lt by lia.
      replace (S k) with (k + 1)%nat by lia.
      rewrite <- !drop_drop. f_equal. exact Hdrop. }
    assert (Htk : take k bs' = take k cur).
    { assert (Hmin : (k `min` S k)%nat = k) by lia.
      rewrite <- Hmin at 1. rewrite <- take_take, Htake, take_take, Hmin.
      apply take_insert_ge. lia. }
    exists bs'. split.
    { cbn [seq]. rewrite Hloop. exact Hbs'. }
    split; [exact Hl |]. split; [exact Htk |].
    intros i self' Hki Hi.
    destruct (decide (i = k)) as [-> | Hne].
    + assert (self' = self) as -> by congruence.
      exists f. split.
      * rewrite Htk, <- Hdrop, take_drop. exact Hf.
      * rewrite <- (lookup_take_lt bs' (S k) k) by lia.
        rewrite Htake, lookup_take_lt by lia.
        apply list_lookup_insert_eq. lia.
    + apply Hrest; [lia | exact Hi].
Qed.

Lemma set_bodies_bodies (s : state) : set_bodies s (bodies s) = s.
Proof. destruct s; reflexivity. Qed.

Lemma body_loop_spec (s : state) :
  Forall (fun b => Body.mass b <> 0) (bodies s) ->
  exists bs' : list Body.t,
    body_loop (seq 0 (length (bodies s))) s = Ok (set_bodies s bs') /\
    length bs' = length (bodies s) /\
    forall (i : nat) (self : Body.t),
      bodies s !! i = Some self ->
      exists f : R * R,
        force_loop i self 0 (take i bs' ++ drop i (bodies s)) (0, 0) = Ok f /\
        bs' !! i = Some (visited s self f).
Proof.
  intros Hmass.
  destruct (body_loop_from s (length (bodies s)) Hmass 0%nat (bodies s))
    as (bs' & Hloop & Hlen & _ & Hall); try reflexivity.
  rewrite set_bodies_bodies in Hloop.
  exists bs'. split; [exact Hloop |]. split; [exact Hlen |].
  intros i self Hi. apply Hall; [lia | exact Hi].
Qed.

(** The store a body sees when the loop reaches it holds that body as it
    was at the start of the frame. *)
Lemma lookup_mixed_store (old new : list Body.t) (i : nat) :
  length new = length old ->
  (take i new ++ drop i old) !! i = old !! i.
Proof.
  intros Hlen. destruct (decide (i < length old)%nat) as [Hi | Hi].
  - rewrite lookup_app_r; rewrite length_take_le by lia; [| lia].
    rewrite lookup_drop. f_equal. lia.
  - rewrite lookup_ge_None_2.
    + symmetry. apply lookup_ge_None_2. lia.
    + rewrite length_app, length_take, length_drop. lia.
Qed.

(** *** Two bodies on the x-axis *)

Lemma separation_A_B : separation body_A body_B = 3600.
Proof. rewrite separation_on_axis; sample_fields; lra. Qed.

Lemma force_on_A :
  force_loop 0 body_A 0 [body_A; body_B] (0, 0) = Ok force_A.
Proof.
  cbn [force_loop Nat.eqb]. rewrite accumulate_far by (rewrite separation_A_B; lra).
  cbn [bind fst snd]. rewrite separation_A_B. sample_fields.
  unfold force_A. f_equal. f_equal; field.
Qed.

Ltac stepped_fields :=
  cbv [body_A' body_B_seq body_B_snap body_A_rev
       force_A force_B_seq force_B_snap force_A_rev stepped
       body_A body_B body_at Body.init fst snd
       Body.x Body.y Body.vx Body.vy Body.mass Body.trail].

Lemma body_A'_position :
  Body.x body_A' = 66743 /\ Body.y body_A' = 0 /\ Body.mass body_A' = 1e15.
Proof. stepped_fields. unfold G, DT. repeat split; lra. Qed.

Lemma body_B_snap_position :
  Body.x body_B_snap = -63143 /\ Body.y body_B_snap = 0 /\
  Body.mass body_B_snap = 1e15.
Proof. stepped_fields. unfold G, DT. repeat split; lra. Qed.

Lemma separation_B_A' : separation body_B body_A' = 63143.
Proof.
  destruct body_A'_position as (Hx & Hy & _).
  rewrite separation_on_axis; rewrite ?Hx, ?Hy; sample_fields; lra.
Qed.

Lemma separation_A_B_snap : separation body_A body_B_snap = 63143.
Proof.
  destruct body_B_snap_position as (Hx & Hy & _).
  rewrite separation_sym.
  rewrite separation_on_axis; rewrite ?Hx, ?Hy; sample_fields; lra.
Qed.

Lemma force_on_B_seq :
  force_loop 1 body_B 0 [body_A'; body_B] (0, 0) = Ok force_B_seq.
Proof.
  destruct body_A'_position as (Hx & Hy & Hm).
  cbn [force_loop Nat.eqb].
  rewrite accumulate_far by (rewrite separation_B_A'; lra).
  cbn [bind fst snd]. rewrite separation_B_A', Hx, Hy, Hm. sample_fields.
  unfold force_B_seq. f_equal. f_equal; field.
Qed.

Lemma force_on_B_snap :
  force_loop 1 body_B 0 [body_A; body_B] (0, 0) = Ok force_B_snap.
Proof.
  cbn [force_loop Nat.eqb].
  rewrite accumulate_far by (rewrite separation_sym, separation_A_B; lra).
  cbn [bind fst snd]. rewrite separation_sym, separation_A_B. sample_fields.
  unfold force_B_snap. f_equal. f_equal; field.
Qed.

Lemma force_on_A_rev :
  force_loop 0 body_A 0 [body_A; body_B_snap] (0, 0) = Ok force_A_rev.
Proof.
  destruct body_B_snap_position as (Hx & Hy & Hm).
  cbn [force_loop Nat.eqb].
  rewrite accumulate_far by (rewrite separation_A_B_snap; lra).
  cbn [bind fst snd]. rewrite separation_A_B_snap, Hx, Hy, Hm. sample_fields.
  unfold force_A_rev. f_equal. f_equal; field.
Qed.

Lemma body_loop_two (i j : nat) (s : state) (a b : Body.t) (f g : R * R)
    (mid : list Body.t) :
  bodies s !! i = Some a ->
  Body.mass a <> 0 ->
  force_loop i a 0 (bodies s) (0, 0) = Ok f ->
  mid = <[i := visited s a f]> (bodies s) ->
  mid !! j = Some b ->
  Body.mass b <> 0 ->
  force_loop j b 0 mid (0, 0) = Ok g ->
  body_loop [i; j] s = Ok (set_bodies s (<[j := visited s b g]> mid)).
Proof.
  intros Hi Ha Hf -> Hj Hb Hg.
  destruct (body_loop_cons i [j] s a Hi Ha) as (f' & Hf' & ->).
  assert (f' = f) as -> by congruence.
  destruct (body_loop_cons j [] (set_bodies s (<[i := visited s a f]> (bodies s)))
              b Hj Hb) as (g' & Hg' & ->).
  cbn [bodies set_bodies] in Hg'.
  assert (g' = g) as -> by congruence.
  reflexivity.
Qed.

(** *** C1 *)

(** The frame of [two_bodies].  The loop steps [body_B] against the
    position [body_A] has after its own step of this frame, which pulls
    [body_B] in the positive x direction; the accelerations taken from the
    positions at the start of the frame pull it in the negative x
    direction, and so does a loop that visits the two bodies in the other
    order. *)
Lemma C1_snapshot_counterexample :
  body_loop (seq 0 (length (bodies two_bodies))) two_bodies =
    Ok (set_bodies two_bodies [body_A'; body_B_seq]) /\
  update_position 1 two_bodies =
    Ok (set_bodies two_bodies [body_A; body_B_snap]) /\
  body_loop [1; 0]%nat two_bodies =
    Ok (set_bodies two_bodies [body_A_rev; body_B_snap]) /\
  Body.vx body_B_snap < 0 < Body.vx body_B_seq /\
  body_B_seq <> body_B_snap.
Proof.
  assert (HmA : Body.mass body_A <> 0) by (sample_fields; lra).
  assert (HmB : Body.mass body_B <> 0) by (sample_fields; lra).
  assert (Hvx : Body.vx body_B_snap < 0 < Body.vx body_B_seq).
  { stepped_fields. unfold G, DT. split; lra. }
  split; [| split; [| split; [| split]]].
  - exact (body_loop_two 0 1 two_bodies body_A body_B force_A force_B_seq
             [body_A'; body_B] eq_refl HmA force_on_A eq_refl eq_refl HmB
             force_on_B_seq).
  - destruct (update_position_ok 1 two_bodies body_B eq_refl HmB)
      as (f & Hf & ->).
    assert (f = force_B_snap) as ->
      by (pose proof force_on_B_snap as H; cbn [bodies two_bodies] in Hf; congruence).
    reflexivity.
  - exact (body_loop_two 1 0 two_bodies body_B body_A force_B_snap force_A_rev
             [body_A; body_B_snap] eq_refl HmB force_on_B_snap eq_refl eq_refl
             HmA force_on_A_rev).
  - exact Hvx.
  - intros Heq. rewrite Heq in Hvx. lra.
Qed.

(** C1, as the program has it.  The loop of a frame visits the bodies in
    list order and steps each one in place, so the store a body is stepped
    against holds the bodies before it as they are after their step of this
    frame and the bodies from it on as they were when the frame began.  The
    body left at index [i] is the result of [update_position] on that
    store: its acceleration is the force sum over that store divided by its
    mass.  Only for the first body is that store the one the frame began
    with. *)
Theorem C1_sequential_frame (s : state) :
  Forall (fun b => Body.mass b <> 0) (bodies s) ->
  exists s' : state,
    body_loop (seq 0 (length (bodies s))) s = Ok s' /\
    length (bodies s') = length (bodies s) /\
    take 0 (bodies s') ++ drop 0 (bodies s) = bodies s /\
    forall (i : nat) (self : Body.t),
      bodies s !! i = Some self ->
      let store := take i (bodies s') ++ drop i (bodies s) in
      exists f : R * R,
        store !! i = Some self /\
        force_loop i self 0 store (0, 0) = Ok f /\
        update_position i (set_bodies s store) =
          Ok (set_bodies s (<[i := stepped s self f]> store)) /\
        bodies s' !! i = Some (visited s self f) /\
        Body.vx (visited s self f) =
          Body.vx self + f.1 / Body.mass self * DT /\
        Body.vy (visited s self f) =
          Body.vy self + f.2 / Body.mass self * DT.
Proof.
  intros Hmass.
  destruct (body_loop_spec s Hmass) as (bs' & Hloop & Hlen & Hall).
  exists (set_bodies s bs'). split; [exact Hloop |].
  cbn [bodies set_bodies]. split; [exact Hlen |]. split; [reflexivity |].
  intros i self Hi.
  set (store := take i bs' ++ drop i (bodies s)).
  destruct (Hall i self Hi) as (f & Hf & Hnew).
  assert (Hstore : store !! i = Some self).
  { unfold store. rewrite lookup_mixed_store by exact Hlen. exact Hi. }
  exists f. split; [exact Hstore |]. split; [exact Hf |]. split.
  - destruct (update_position_ok i (set_bodies s store) self Hstore
                (Forall_lookup_1 _ _ _ _ Hmass Hi)) as (f' & Hf' & ->).
    cbn [bodies set_bodies] in Hf'.
    assert (f' = f) as -> by (unfold store in Hf'; congruence).
    reflexivity.
  - split; [exact Hnew |].
    unfold visited. destruct (trail_reset s); split; reflexivity.
Qed.

Lemma C1_sequential_frame_witness :
  Forall (fun b => Body.mass b <> 0) (bodies two_bodies) /\
  exists s' : state,
    body_loop (seq 0 (length (bodies two_bodies))) two_bodies = Ok s' /\
    length (bodies s') = length (bodies two_bodies).
Proof.
  assert (Hmass : Forall (fun b => Body.mass b <> 0) (bodies two_bodies)).
  { repeat constructor; sample_fields; lra. }
  split; [exact Hmass |].
  destruct (C1_sequential_frame two_bodies Hmass) as (s' & Hloop & Hlen & _).
  exists s'. split; assumption.
Defined.

(** ** Events *)

Lemma handle_event_bodies (ev : event) (s s' : state) :
  is_reset_click ev = false ->
  handle_event ev s = Ok s' ->
  bodies s' = bodies s.
Proof.
  intros Hclick Hev. destruct ev as [| k | button pos | button pos | pos |];
    cbn [handle_event is_reset_click] in *.
  - injection Hev as <-. reflexivity.
  - destruct k; injection Hev as <-; reflexivity.
  - destruct (button =? 1)%Z; cbn [andb] in Hclick.
    + rewrite Hclick in Hev. injection Hev as <-. reflexivity.
    + injection Hev as <-. reflexivity.
  - destruct (button =? 1)%Z; injection Hev as <-; reflexivity.
  - destruct (panning s); [| injection Hev as <-; reflexivity].
    destruct (last_mouse_pos s) as [last |]; cbn [subscript bind] in Hev;
      [| discriminate].
    injection Hev as <-. reflexivity.
  - injection Hev as <-. reflexivity.
Qed.

Lemma handle_event_well_formed (ev : event) (s : state) :
  well_formed s ->
  exists s' : state,
    handle_event ev s = Ok s' /\
    well_formed s' /\
    (trail_reset s' = false -> bodies s' = bodies s) /\
    (trail_reset s = true -> trail_reset s' = true) /\
    (ev <> QUIT -> running s' = running s).
Proof.
  intros [Hmass Hpan].
  assert (Hreset : exists bs : list Body.t,
             reset_simulation s = Ok (after_reset bs s) /\
             Forall (fun b => Body.mass b <> 0) bs).
  { destruct initial_bodies_exist as (bs & Hbs & _ & _ & Hpos).
    exists bs. split; [apply reset_simulation_ok, Hbs |].
    eapply Forall_impl; [exact Hpos |]. cbn. intros b Hb. lra. }
  destruct Hreset as (bs & Hreset & Hbs).
  destruct ev as [| k | button pos | button pos | pos |];
    cbn [handle_event];
    [ | destruct k | destruct (button =? 1)%Z;
                     [destruct (collidepoint reset_button pos) |]
      | destruct (button =? 1)%Z
      | destruct (panning s) eqn:Hp; [destruct (Hpan Hp) as [last ->] |]
      | ];
    rewrite ?Hreset; cbn [subscript bind];
    (eexists; split; [reflexivity |]);
    (split; [split; [first [exact Hmass | exact Hbs] |] |]);
    try (unfold pan_invariant in *; cbn; first [exact Hpan | eauto | discriminate]);
    repeat split; cbn; auto; try discriminate; try contradiction.
Qed.

Lemma handle_events_well_formed (evs : list event) :
  forall s : state,
    well_formed s ->
    exists s1 : state,
      handle_events evs s = Ok s1 /\
      well_formed s1 /\
      (trail_reset s1 = false -> bodies s1 = bodies s) /\
      (trail_reset s = true -> trail_reset s1 = true).
Proof.
  induction evs as [| ev evs IH]; intros s Hwf; cbn [handle_events].
  - exists s. auto.
  - destruct (handle_event_well_formed ev s Hwf)
      as (s' & -> & Hwf' & Hb & Ht & _).
    cbn [bind].
    destruct (IH s' Hwf') as (s1 & Hs1 & Hwf1 & Hb1 & Ht1).
    exists s1. split; [exact Hs1 |]. split; [exact Hwf1 |]. split.
    + intros Hfalse. rewrite (Hb1 Hfalse). apply Hb.
      destruct (trail_reset s') eqn:Hs'; [| reflexivity].
      rewrite (Ht1 eq_refl) in Hfalse. discriminate.
    + intros Htrue. apply Ht1, Ht, Htrue.
Qed.

(** ** Trails *)

Lemma push_trail_short (tr : list (Z * Z)) (p : Z * Z) :
  (length tr < 200)%nat -> push_trail tr p = tr ++ [p].
Proof.
  intros Hlen. unfold push_trail.
  destruct (Nat.ltb_spec 200 (length (tr ++ [p]))) as [H | H];
    [| reflexivity].
  rewrite length_app in H. cbn [length] in H. lia.
Qed.

Lemma push_trail_full (tr : list (Z * Z)) (p : Z * Z) :
  (200 <= length tr)%nat -> push_trail tr p = tail tr ++ [p].
Proof.
  intros Hlen. unfold push_trail.
  destruct (Nat.ltb_spec 200 (length (tr ++ [p]))) as [H | H].
  - destruct tr as [| q tr]; [cbn [length] in Hlen; lia | reflexivity].
  - rewrite length_app in H. cbn [length] in H. lia.
Qed.

Lemma push_trail_length (tr : list (Z * Z)) (p : Z * Z) :
  (length tr <= 200)%nat ->
  length (push_trail tr p) = (S (length tr) `min` 200)%nat.
Proof.
  intros Hlen. destruct (decide (length tr < 200)%nat) as [H | H].
  - rewrite push_trail_short by exact H.
    rewrite length_app. cbn [length]. lia.
  - rewrite push_trail_full by lia.
    rewrite length_app. cbn [length].
    destruct tr as [| q tr]; cbn [length tail] in *; lia.
Qed.

(** ** Frames *)

Lemma frame_well_formed (evs : list event) (s : state) :
  well_formed s ->
  exists (s1 : state) (bs' : list Body.t),
    handle_events evs s = Ok s1 /\
    well_formed s1 /\
    (trail_reset s1 = false -> bodies s1 = bodies s) /\
    frame evs s = Ok (set_trail_reset (set_bodies s1 bs') false) /\
    length bs' = length (bodies s1) /\
    forall (i : nat) (self : Body.t),
      bodies s1 !! i = Some self ->
      exists f : R * R, bs' !! i = Some (visited s1 self f).
Proof.
  intros Hwf.
  destruct (handle_events_well_formed evs s Hwf) as (s1 & Hs1 & Hwf1 & Hb & _).
  destruct (body_loop_spec s1 (proj1 Hwf1)) as (bs' & Hloop & Hlen & Hall).
  exists s1, bs'. split; [exact Hs1 |]. split; [exact Hwf1 |].
  split; [exact Hb |]. split.
  - unfold frame. rewrite Hs1. cbn [bind]. rewrite Hloop. reflexivity.
  - split; [exact Hlen |].
    intros i self Hi. destruct (Hall i self Hi) as (f & _ & Hf). eauto.
Qed.

Lemma frame_trails (evs : list event) (s : state) (n : nat) :
  well_formed s ->
  Forall (fun b => length (Body.trail b) = (n `min` 200)%nat) (bodies s) ->
  exists s1 s' : state,
    handle_events evs s = Ok s1 /\
    frame evs s = Ok s' /\
    well_formed s' /\
    trail_reset s' = false /\
    running s' = running s1 /\
    Forall (fun b => length (Body.trail b) =
                     ((if trail_reset s1 then 0 else S n) `min` 200)%nat)
      (bodies s') /\
    (trail_reset s1 = true -> Forall (fun b => Body.trail b = []) (bodies s')).
Proof.
  intros Hwf Hn.
  destruct (frame_well_formed evs s Hwf)
    as (s1 & bs' & Hs1 & [Hmass1 Hpan1] & Hb & Hframe & Hlen & Hall).
  exists s1, (set_trail_reset (set_bodies s1 bs') false).
  split; [exact Hs1 |]. split; [exact Hframe |].
  assert (Hvisited : forall (i : nat) (b : Body.t),
             bs' !! i = Some b ->
             exists (self : Body.t) (f : R * R),
               bodies s1 !! i = Some self /\ b = visited s1 self f).
  { intros i b Hi.
    assert (Hlt : (i < length (bodies s1))%nat)
      by (rewrite <- Hlen; eapply lookup_lt_Some, Hi).
    destruct (lookup_lt_is_Some_2 _ _ Hlt) as [self Hself].
    destruct (Hall i self Hself) as (f & Hf).
    exists self, f. split; [exact Hself | congruence]. }
  split; [| split; [reflexivity | split; [reflexivity |]]].
  - split; [| exact Hpan1]. cbn [bodies set_trail_reset set_bodies].
    apply Forall_lookup_2. intros i b Hi.
    destruct (Hvisited i b Hi) as (self & f & Hself & ->).
    assert (Hm : Body.mass self <> 0)
      by exact (Forall_lookup_1 _ _ _ _ Hmass1 Hself).
    unfold visited. destruct (trail_reset s1); exact Hm.
  - cbn [bodies set_trail_reset set_bodies]. split.
    + apply Forall_lookup_2. intros i b Hi.
      destruct (Hvisited i b Hi) as (self & f & Hself & ->).
      unfold visited. destruct (trail_reset s1) eqn:Hreset; [reflexivity |].
      rewrite (Hb eq_refl) in Hself.
      pose proof (Forall_lookup_1 _ _ _ _ Hn Hself) as Hself_n.
      cbn [stepped Body.trail]. cbv beta in Hself_n.
      rewrite push_trail_length by lia. lia.
    + intros Hreset. apply Forall_lookup_2. intros i b Hi.
      destruct (Hvisited i b Hi) as (self & f & Hself & ->).
      unfold visited. rewrite Hreset. reflexivity.
Qed.

Lemma main_loop_trails (frames : list (list event)) :
  forall (s : state) (n : nat),
    well_formed s ->
    Forall (fun b => length (Body.trail b) = (n `min` 200)%nat) (bodies s) ->
    exists s' : state,
      main_loop frames s = Ok s' /\
      well_formed s' /\
      Forall (fun b => length (Body.trail b) =
                       (frames_since_reset frames s n `min` 200)%nat)
        (bodies s').
Proof.
  induction frames as [| evs frames IH]; intros s n Hwf Hn;
    cbn [main_loop frames_since_reset].
  - exists s. auto.
  - destruct (running s); [| exists s; auto].
    destruct (frame_trails evs s n Hwf Hn)
      as (s1 & s' & -> & -> & Hwf' & _ & _ & Hn' & _).
    cbn [bind]. apply IH; assumption.
Qed.

Lemma quiet_frames_count (N : nat) :
  forall (s : state) (n : nat),
    well_formed s ->
    running s = true ->
    trail_reset s = false ->
    Forall (fun b => length (Body.trail b) = (n `min` 200)%nat) (bodies s) ->
    frames_since_reset (replicate N []) s n = (n + N)%nat.
Proof.
  induction N as [| N IH]; intros s n Hwf Hrun Hreset Hn;
    cbn [replicate frames_since_reset].
  - lia.
  - rewrite Hrun.
    destruct (frame_trails [] s n Hwf Hn)
      as (s1 & s' & Hs1 & -> & Hwf' & Hreset' & Hrun' & Hn' & _).
    rewrite Hs1. cbn [handle_events] in Hs1. injection Hs1 as <-.
    rewrite Hreset in *. rewrite IH; [lia | assumption | congruence
                                      | assumption | assumption].
Qed.

Lemma initial_state_ok :
  exists s0 : state,
    initial_state = Ok s0 /\
    well_formed s0 /\
    Forall (fun b => Body.trail b = []) (bodies s0) /\
    Forall2 (fun d b => initial_body d = Ok b) planets_data (bodies s0) /\
    camera_x s0 = 0%Z /\ camera_y s0 = 0%Z /\ zoomed s0 = false /\
    panning s0 = false /\ last_mouse_pos s0 = None /\
    trail_reset s0 = false /\ running s0 = true.
Proof.
  destruct initial_bodies_exist as (bs & Hbs & H2 & Htr & Hpos).
  exists (mkState bs 0 0 false false None false true).
  split; [unfold initial_state; rewrite Hbs; reflexivity |].
  split; [| repeat split; assumption].
  split; [| intros H; discriminate H].
  eapply Forall_impl; [exact Hpos |]. cbn. intros b Hb. lra.
Qed.

(** *** C6 *)

(** C6.  The trail is a FIFO buffer of capacity [200]: a step appends the
    projected position at the end and, when that makes [201] entries,
    drops the entry at the front.  Along any run of the main loop from a
    state whose trails have length [min n 200], the loop returns and every
    trail has length [min N 200], where [N] is the number of frames since
    the trails were last emptied, so at most [200]; the program starts
    with empty trails, and after [N] frames without events every trail has
    length [min N 200].  A frame whose events raise the trail-reset flag
    ends with every trail empty. *)
Theorem C6_trail_length :
  (forall (tr : list (Z * Z)) (p : Z * Z),
     ((length tr < 200)%nat -> push_trail tr p = tr ++ [p]) /\
     (length tr = 200%nat -> push_trail tr p = tail tr ++ [p]) /\
     ((length tr <= 200)%nat -> (length (push_trail tr p) <= 200)%nat)) /\
  (forall (s : state) (self : Body.t) (f : R * R),
     Body.trail (stepped s self f) =
       push_trail (Body.trail self)
         (screen_x s (Body.x (stepped s self f)),
          screen_y s (Body.y (stepped s self f)))) /\
  (exists s0 : state,
     initial_state = Ok s0 /\ well_formed s0 /\
     running s0 = true /\ trail_reset s0 = false /\
     Forall (fun b => Body.trail b = []) (bodies s0)) /\
  (forall (frames : list (list event)) (s : state) (n : nat),
     well_formed s ->
     Forall (fun b => length (Body.trail b) = (n `min` 200)%nat) (bodies s) ->
     exists s' : state,
       main_loop frames s = Ok s' /\
       Forall (fun b => length (Body.trail b) =
                        (frames_since_reset frames s n `min` 200)%nat)
         (bodies s') /\
       Forall (fun b => (length (Body.trail b) <= 200)%nat) (bodies s')) /\
  (forall (N : nat) (s : state),
     well_formed s -> running s = true -> trail_reset s = false ->
     Forall (fun b => Body.trail b = []) (bodies s) ->
     exists s' : state,
       main_loop (replicate N []) s = Ok s' /\
       Forall (fun b => length (Body.trail b) = (N `min` 200)%nat)
         (bodies s')) /\
  (forall (evs : list event) (s s1 : state),
     well_formed s ->
     handle_events evs s = Ok s1 ->
     trail_reset s1 = true ->
     exists s' : state,
       frame evs s = Ok s' /\
       Forall (fun b => length (Body.trail b) = 0%nat) (bodies s')).
Proof.
  split; [| split; [| split; [| split; [| split]]]].
  - intros tr p. split; [apply push_trail_short |]. split.
    + intros H. apply push_trail_full. lia.
    + intros H. rewrite push_trail_length by exact H. lia.
  - reflexivity.
  - destruct initial_state_ok
      as (s0 & H0 & Hwf & Htr & _ & _ & _ & _ & _ & _ & Hreset & Hrun).
    exists s0. auto.
  - intros frames s n Hwf Hn.
    destruct (main_loop_trails frames s n Hwf Hn) as (s' & Hs' & _ & Hlen).
    exists s'. split; [exact Hs' |]. split; [exact Hlen |].
    eapply Forall_impl; [exact Hlen |]. cbn. intros b Hb. lia.
  - intros N s Hwf Hrun Hreset Hempty.
    assert (Hn : Forall (fun b => length (Body.trail b) = (0 `min` 200)%nat)
                   (bodies s)).
    { eapply Forall_impl; [exact Hempty |]. cbn. intros b ->. reflexivity. }
    destruct (main_loop_trails (replicate N []) s 0 Hwf Hn)
      as (s' & Hs' & _ & Hlen).
    rewrite quiet_frames_count in Hlen by assumption.
    exists s'. split; [exact Hs' | exact Hlen].
  - intros evs s s1 Hwf Hs1 Hreset.
    destruct (frame_well_formed evs s Hwf)
      as (s1' & bs' & Hs1' & _ & _ & Hframe & Hlen & Hall).
    assert (s1' = s1) as -> by congruence.
    eexists. split; [exact Hframe |].
    cbn [bodies set_trail_reset set_bodies].
    apply Forall_lookup_2. intros i b Hi.
    assert (Hlt : (i < length (bodies s1))%nat)
      by (rewrite <- Hlen; eapply lookup_lt_Some, Hi).
    destruct (lookup_lt_is_Some_2 _ _ Hlt) as [self Hself].
    destruct (Hall i self Hself) as (f & Hf).
    assert (b = visited s1 self f) as -> by congruence.
    unfold visited. rewrite Hreset. reflexivity.
Qed.

(** Three frames of [two_bodies]: a quiet one, one with a zoom toggle,
    a quiet one.  One frame has passed since the trails were emptied. *)
Lemma sample_run_count :
  frames_since_reset [[]; [KEYDOWN K_z]; []] two_bodies 0 = 1%nat.
Proof.
  assert (Hwf : well_formed two_bodies).
  { split; [repeat constructor; sample_fields; lra |].
    intros H. discriminate H. }
  assert (Hn : Forall (fun b => length (Body.trail b) = (0 `min` 200)%nat)
                 (bodies two_bodies)) by (repeat constructor).
  cbn [frames_since_reset].
  change (running two_bodies) with true. cbv iota.
  destruct (frame_trails [] two_bodies 0 Hwf Hn)
    as (s1 & sa & Hs1 & -> & Hwfa & _ & Hruna & Hna & _).
  rewrite Hs1. cbn [handle_events] in Hs1. injection Hs1 as <-.
  change (trail_reset two_bodies) with false in *. cbv iota in *.
  change (running two_bodies) with true in Hruna. rewrite Hruna.
  destruct (frame_trails [KEYDOWN K_z] sa 1 Hwfa Hna)
    as (s2 & sb & Hs2 & -> & Hwfb & Hresetb & Hrunb & Hnb & _).
  rewrite Hs2. cbn [handle_events handle_event bind] in Hs2.
  injection Hs2 as <-.
  cbn [trail_reset set_trail_reset running set_zoomed] in *.
  rewrite Hruna in Hrunb. rewrite Hrunb.
  destruct (frame_trails [] sb 0 Hwfb Hnb)
    as (s3 & sc & Hs3 & -> & _).
  rewrite Hs3. cbn [handle_events] in Hs3. injection Hs3 as <-.
  rewrite Hresetb. reflexivity.
Qed.

Lemma C6_trail_length_witness :
  well_formed two_bodies /\
  Forall (fun b => length (Body.trail b) = (0 `min` 200)%nat)
    (bodies two_bodies) /\
  exists s' : state,
    main_loop [[]; [KEYDOWN K_z]; []] two_bodies = Ok s' /\
    Forall (fun b => length (Body.trail b) =
                     (frames_since_reset [[]; [KEYDOWN K_z]; []] two_bodies 0
                        `min` 200)%nat)
      (bodies s') /\
    Forall (fun b => length (Body.trail b) = 1%nat) (bodies s').
Proof.
  assert (Hwf : well_formed two_bodies).
  { split; [repeat constructor; sample_fields; lra |].
    intros H. discriminate H. }
  assert (Hn : Forall (fun b => length (Body.trail b) = (0 `min` 200)%nat)
                 (bodies two_bodies)) by (repeat constructor).
  split; [exact Hwf |]. split; [exact Hn |].
  destruct (proj1 (proj2 (proj2 (proj2 C6_trail_length)))
              [[]; [KEYDOWN K_z]; []] two_bodies 0%nat Hwf Hn)
    as (s' & Hs' & Hlen & _).
  exists s'. split; [exact Hs' |]. split; [exact Hlen |].
  rewrite sample_run_count in Hlen. exact Hlen.
Defined.

(** ** The start of the program *)

Lemma initial_bodies_ok :
  comprehension initial_body planets_data = Ok initial_bodies.
Proof.
  apply comprehension_Forall2. unfold planets_data, initial_bodies.
  cbn [tail map]. constructor.
  - apply get_initial_conditions_central.
  - repeat (constructor;
            [unfold initial_body, at_perihelion;
             apply get_initial_conditions_perihelion;
             cbv [o_a o_e default_central_mass]; lra |]).
    constructor.
Qed.

Lemma initial_state_start : initial_state = Ok start.
Proof. unfold initial_state. rewrite initial_bodies_ok. reflexivity. Qed.

Lemma initial_bodies_mass :
  Forall (fun b => 0 < Body.mass b) initial_bodies.
Proof.
  destruct initial_bodies_exist as (bs & Hbs & _ & _ & Hpos).
  rewrite initial_bodies_ok in Hbs. injection Hbs as <-. exact Hpos.
Qed.

Lemma start_well_formed : well_formed start.
Proof.
  split; [| intros H; discriminate H].
  eapply Forall_impl; [exact initial_bodies_mass |]. cbn. intros b Hb. lra.
Qed.

(** ** The pan state *)

Lemma frame_total (evs : list event) (s : state) :
  well_formed s ->
  exists s1 s' : state,
    handle_events evs s = Ok s1 /\
    frame evs s = Ok s' /\
    well_formed s' /\
    panning s' = panning s1 /\ last_mouse_pos s' = last_mouse_pos s1 /\
    camera_x s' = camera_x s1 /\ camera_y s' = camera_y s1 /\
    zoomed s' = zoomed s1 /\ running s' = running s1 /\
    trail_reset s' = false.
Proof.
  intros Hwf.
  destruct (frame_well_formed evs s Hwf)
    as (s1 & bs' & Hs1 & [Hmass1 Hpan1] & _ & Hframe & Hlen & Hall).
  exists s1, (set_trail_reset (set_bodies s1 bs') false).
  split; [exact Hs1 |]. split; [exact Hframe |].
  split; [| repeat split].
  split; [| exact Hpan1]. cbn [bodies set_trail_reset set_bodies].
  apply Forall_lookup_2. intros i b Hi.
  assert (Hlt : (i < length (bodies s1))%nat)
    by (rewrite <- Hlen; eapply lookup_lt_Some, Hi).
  destruct (lookup_lt_is_Some_2 _ _ Hlt) as [self Hself].
  destruct (Hall i self Hself) as (f & Hf).
  assert (b = visited s1 self f) as -> by congruence.
  pose proof (Forall_lookup_1 _ _ _ _ Hmass1 Hself) as Hm.
  unfold visited. destruct (trail_reset s1); exact Hm.
Qed.

Lemma reachable_well_formed (s : state) : reachable s -> well_formed s.
Proof.
  induction 1 as [| ev s s' _ IH Hev | evs s s' _ IH _ Hframe].
  - exact start_well_formed.
  - destruct (handle_event_well_formed ev s IH) as (s'' & Hs'' & Hwf & _).
    congruence.
  - destruct (frame_total evs s IH) as (s1 & s'' & _ & Hs'' & Hwf & _).
    congruence.
Qed.

Lemma main_loop_reachable (frames : list (list event)) :
  forall s s' : state,
    reachable s -> main_loop frames s = Ok s' -> reachable s'.
Proof.
  induction frames as [| evs frames IH]; intros s s' Hreach Hloop;
    cbn [main_loop] in Hloop.
  - injection Hloop as <-. exact Hreach.
  - destruct (running s) eqn:Hrun; [| injection Hloop as <-; exact Hreach].
    destruct (frame evs s) as [s1 |] eqn:Hframe; cbn [bind] in Hloop;
      [| discriminate].
    apply (IH s1 s'); [| exact Hloop].
    exact (reachable_frame evs s s1 Hreach Hrun Hframe).
Qed.

(** *** C7 *)

(** A press away from the reset control and its release, in the first
    frame of the program: the frame ends with the panning flag down and
    the last pointer position still set. *)
Lemma C7_pointer_up_counterexample :
  exists s' : state,
    main_loop [[press; release]] start = Ok s' /\
    reachable s' /\
    panning s' = false /\
    last_mouse_pos s' = Some (200, 200)%Z /\
    ~ (is_Some (last_mouse_pos s') <-> panning s' = true).
Proof.
  destruct (frame_total [press; release] start start_well_formed)
    as (s1 & s' & Hs1 & Hframe & _ & Hpan & Hlast & _).
  cbn [handle_events handle_event press release bind] in Hs1.
  change (collidepoint reset_button (200, 200)%Z) with false in Hs1.
  cbn [Z.eqb Pos.eqb bind] in Hs1. injection Hs1 as <-.
  cbn [panning last_mouse_pos set_panning set_last_mouse_pos] in Hpan, Hlast.
  exists s'. split.
  { cbn [main_loop start running]. rewrite Hframe. reflexivity. }
  split.
  { eapply reachable_frame; [exact reachable_start | reflexivity | exact Hframe]. }
  split; [exact Hpan |]. split; [exact Hlast |].
  rewrite Hpan, Hlast. intros [H _].
  specialize (H (mk_is_Some _ _ eq_refl)). discriminate H.
Qed.

(** C7, as the program has it.  In every state of a run, the last pointer
    position is set whenever the panning flag is up, so no handler raises.
    A press of the primary button away from the reset control raises the
    flag and sets the position; the release of the primary button lowers
    the flag and leaves the position as it is. *)
Theorem C7_pan_anchor (s : state) :
  reachable s ->
  (panning s = true -> is_Some (last_mouse_pos s)) /\
  (forall ev : event, exists s' : state, handle_event ev s = Ok s') /\
  (forall pos : Z * Z,
     collidepoint reset_button pos = false ->
     handle_event (MOUSEBUTTONDOWN 1 pos) s =
       Ok (set_last_mouse_pos (set_panning s true) (Some pos))) /\
  (forall pos : Z * Z,
     exists s' : state,
       handle_event (MOUSEBUTTONUP 1 pos) s = Ok s' /\
       panning s' = false /\
       last_mouse_pos s' = last_mouse_pos s).
Proof.
  intros Hreach. pose proof (reachable_well_formed s Hreach) as Hwf.
  split; [exact (proj2 Hwf) |]. split; [| split].
  - intros ev. destruct (handle_event_well_formed ev s Hwf) as (s' & Hs' & _).
    eauto.
  - intros pos Hpos. cbn [handle_event Z.eqb Pos.eqb]. rewrite Hpos.
    reflexivity.
  - intros pos. eexists. split; [reflexivity |]. split; reflexivity.
Qed.

Lemma C7_pan_anchor_witness :
  reachable pressed /\
  panning pressed = true /\
  is_Some (last_mouse_pos pressed) /\
  exists s' : state,
    handle_event release pressed = Ok s' /\
    panning s' = false /\
    last_mouse_pos s' = last_mouse_pos pressed /\
    last_mouse_pos s' = Some (200, 200)%Z.
Proof.
  assert (Hreach : reachable pressed).
  { exact (reachable_event press start pressed reachable_start eq_refl). }
  destruct (C7_pan_anchor pressed Hreach) as (Hpan & _ & _ & Hup).
  split; [exact Hreach |]. split; [reflexivity |].
  split; [exact (Hpan eq_refl) |].
  destruct (Hup (200, 200)%Z) as (s' & Hs' & Hoff & Hlast).
  exists s'. split; [exact Hs' |]. split; [exact Hoff |].
  split; [exact Hlast |]. rewrite Hlast. reflexivity.
Defined.

(** *** C10 *)

(** C10.  An event that is not a press of the primary button on the reset
    control is handled without touching [bodies]: positions, velocities,
    masses, radii and trails are as before.  Unless the event is [QUIT],
    the [running] flag is as before too, so the only variables the handler
    may have changed are the zoom flag, the camera offset, the panning
    flag, the last pointer position and the trail-reset flag. *)
Theorem C10_view_events_keep_bodies (ev : event) (s : state) :
  pan_invariant s ->
  is_reset_click ev = false ->
  exists s' : state,
    handle_event ev s = Ok s' /\
    bodies s' = bodies s /\
    (ev <> QUIT -> running s' = running s).
Proof.
  intros Hpan Hclick.
  destruct ev as [| k | button pos | button pos | pos |];
    cbn [handle_event is_reset_click] in *;
    [ | destruct k
      | destruct (button =? 1)%Z; cbn [andb] in Hclick; rewrite ?Hclick
      | destruct (button =? 1)%Z
      | destruct (panning s) eqn:Hp; [destruct (Hpan Hp) as [last ->] |]
      | ];
    cbn [subscript bind];
    (eexists; split; [reflexivity |]); split; try reflexivity;
    intros H; try reflexivity; contradiction.
Qed.

Lemma C10_view_events_keep_bodies_witness :
  pan_invariant two_bodies /\
  is_reset_click (KEYDOWN K_z) = false /\
  exists s' : state,
    handle_event (KEYDOWN K_z) two_bodies = Ok s' /\
    bodies s' = bodies two_bodies /\
    (KEYDOWN K_z <> QUIT -> running s' = running two_bodies).
Proof.
  assert (Hpan : pan_invariant two_bodies) by (intros H; discriminate H).
  split; [exact Hpan |]. split; [reflexivity |].
  exact (C10_view_events_keep_bodies (KEYDOWN K_z) two_bodies Hpan eq_refl).
Defined.

(** ** The projection *)

Lemma viewport_center : (WIDTH `div` 2 = 450)%Z /\ (HEIGHT `div` 2 = 300)%Z.
Proof. split; reflexivity. Qed.

Lemma push_trail_last (tr : list (Z * Z)) (p : Z * Z) :
  last (push_trail tr p) = Some p.
Proof.
  destruct (decide (length tr < 200)%nat) as [H | H].
  - rewrite push_trail_short by exact H. apply last_snoc.
  - rewrite push_trail_full by lia. apply last_snoc.
Qed.

(** *** C2 *)

(** The body at [x = 2.8e10] in the zoomed-out view with the camera at
    rest: the projected abscissa is [450.7]; the program draws the body at
    [450], which is not [450.7] rounded ([451] is). *)
Lemma C2_round_counterexample :
  Body.x (body_at 2.8e10) * current_scale two_bodies
    + IZR (WIDTH `div` 2) - IZR (camera_x two_bodies) = 450.7 /\
  draw two_bodies (body_at 2.8e10) = (450, 300, 2)%Z /\
  ~ nearest_integer 450.7 450 /\
  nearest_integer 450.7 451.
Proof.
  assert (Hv : Body.x (body_at 2.8e10) * current_scale two_bodies
                 + IZR (WIDTH `div` 2) - IZR (camera_x two_bodies) = 450.7).
  { change (WIDTH `div` 2)%Z with 450%Z.
    cbv [current_scale two_bodies zoomed camera_x SCALE]. sample_fields. lra. }
  split; [exact Hv |]. split; [| split].
  - unfold draw, screen_x, screen_y. rewrite Hv.
    change (HEIGHT `div` 2)%Z with 300%Z.
    cbv [current_scale two_bodies zoomed camera_y SCALE]. sample_fields.
    rewrite (int_unique_nonneg 450.7 450) by lra.
    rewrite (int_unique_nonneg (0 * 2.5e-11 + 300 - 0) 300) by lra.
    reflexivity.
  - unfold nearest_integer. rewrite Rabs_left by lra. lra.
  - unfold nearest_integer. rewrite Rabs_right by lra. lra.
Qed.

(** C2, as the program has it.  The scale is [ZOOM_SCALE = 1e-10] when the
    zoom flag is set and [SCALE = 2.5e-11] otherwise, and the first is the
    larger.  A body is drawn at
    [(int (x * scale + 450 - camera_x), int (y * scale + 300 - camera_y))],
    where [450] and [300] are the viewport center and [int] cuts the
    fraction off toward zero; the point a step appends to the trail of a
    body is the point the body is drawn at after the step. *)
Theorem C2_projection (s : state) :
  current_scale s = (if zoomed s then ZOOM_SCALE else SCALE) /\
  SCALE = 2.5e-11 /\ ZOOM_SCALE = 1e-10 /\ SCALE < ZOOM_SCALE /\
  (forall b : Body.t,
     draw s b =
       (int (Body.x b * current_scale s + 450 - IZR (camera_x s)),
        int (Body.y b * current_scale s + 300 - IZR (camera_y s)),
        Z.max (Body.radius b) 2)) /\
  (forall v : R,
     (0 <= v -> IZR (int v) <= v < IZR (int v) + 1) /\
     (v < 0 -> v <= IZR (int v) < v + 1)) /\
  (forall (i : nat) (self : Body.t),
     bodies s !! i = Some self ->
     Body.mass self <> 0 ->
     exists (s' : state) (self' : Body.t),
       update_position i s = Ok s' /\
       bodies s' !! i = Some self' /\
       last (Body.trail self') = Some (draw s' self').1).
Proof.
  split; [reflexivity |]. split; [reflexivity |]. split; [reflexivity |].
  split; [unfold SCALE, ZOOM_SCALE; lra |]. split; [| split].
  - intros b. reflexivity.
  - intros v. split; [apply int_nonneg | apply int_neg].
  - intros i self Hi Hm.
    destruct (update_position_ok i s self Hi Hm) as (f & _ & Hup).
    eexists _, (stepped s self f). split; [exact Hup |]. split.
    + cbn [bodies set_bodies]. apply list_lookup_insert_eq.
      eapply lookup_lt_Some, Hi.
    + cbn [stepped Body.trail]. apply push_trail_last.
Qed.

Lemma C2_projection_witness :
  bodies two_bodies !! 0%nat = Some body_A /\
  Body.mass body_A <> 0 /\
  exists (s' : state) (self' : Body.t),
    update_position 0 two_bodies = Ok s' /\
    bodies s' !! 0%nat = Some self' /\
    last (Body.trail self') = Some (draw s' self').1.
Proof.
  assert (Hm : Body.mass body_A <> 0) by (sample_fields; lra).
  split; [reflexivity |]. split; [exact Hm |].
  exact (proj2 (proj2 (proj2 (proj2 (proj2 (proj2 (C2_projection two_bodies))))))
           0%nat body_A eq_refl Hm).
Defined.

(** * Further properties of the program *)

(** ** The orbit initializer: errors and the orbit it starts *)

Lemma math_sqrt_negative (x : R) : x < 0 -> math_sqrt x = Raise ValueError.
Proof.
  intros Hx. unfold math_sqrt. destruct (Rlt_dec x 0); [reflexivity | lra].
Qed.

(** X1.  Away from [a = 0] the initializer raises on orbits that are not
    ellipses: with [e = 1] the quotient under the root divides by zero,
    and with [e > 1] (for [a > 0] and a positive central mass) the root is
    taken of a negative number. *)
Theorem X1_initializer_errors (a e mass : R) (radius : Z)
    (color : Z * Z * Z) (name : string) (central_mass : R) :
  0 < a -> 0 < central_mass ->
  (e = 1 ->
   get_initial_conditions a e mass radius color name central_mass =
     Raise ZeroDivisionError) /\
  (1 < e ->
   get_initial_conditions a e mass radius color name central_mass =
     Raise ValueError).
Proof.
  intros Ha Hc. unfold get_initial_conditions.
  destruct (Req_dec_T a 0); [lra |]. split.
  - intros ->. replace (a * (1 - 1)) with 0 by ring.
    rewrite truediv_zero. reflexivity.
  - intros He. assert (Hd : a * (1 - e) < 0) by nra.
    rewrite truediv_ok by lra. cbn [bind].
    rewrite math_sqrt_negative; [reflexivity |].
    assert (HG : 0 < G) by (unfold G; lra).
    assert (Hn : 0 < G * central_mass * (1 + e)).
    { apply Rmult_lt_0_compat; [apply Rmult_lt_0_compat |]; lra. }
    pose proof (Rinv_lt_0_compat _ Hd) as Hinv.
    unfold Rdiv. nra.
Qed.

Lemma X1_initializer_errors_witness :
  0 < 1.496e11 /\ 0 < 1.989e30 /\
  get_initial_conditions 1.496e11 1 5.972e24 4 (0, 100, 255)%Z "Earth"
    1.989e30 = Raise ZeroDivisionError /\
  get_initial_conditions 1.496e11 1.5 5.972e24 4 (0, 100, 255)%Z "Earth"
    1.989e30 = Raise ValueError.
Proof.
  assert (Ha : 0 < 1.496e11) by lra.
  assert (Hc : 0 < 1.989e30) by lra.
  assert (He : 1 < 1.5) by lra.
  split; [exact Ha |]. split; [exact Hc |]. split.
  - exact (proj1 (X1_initializer_errors 1.496e11 1 5.972e24 4%Z
                    (0, 100, 255)%Z "Earth" 1.989e30 Ha Hc) eq_refl).
  - exact (proj2 (X1_initializer_errors 1.496e11 1.5 5.972e24 4%Z
                    (0, 100, 255)%Z "Earth" 1.989e30 Ha Hc) He).
Defined.

(** ** The force loop *)

Lemma force_loop_near (i : nat) (self : Body.t) (others : list Body.t) :
  forall (j : nat) (f : R * R),
    (forall (k : nat) (o : Body.t),
       others !! k = Some o -> (j + k)%nat <> i -> separation self o <= 1e3) ->
    force_loop i self j others f = Ok f.
Proof.
  induction others as [| other others IH]; intros j f Hnear;
    cbn [force_loop]; [reflexivity |].
  assert (Hrest : forall (k : nat) (o : Body.t),
             others !! k = Some o -> (S j + k)%nat <> i ->
             separation self o <= 1e3).
  { intros k o Hk Hne. apply (Hnear (S k) o); [exact Hk | lia]. }
  destruct (Nat.eqb_spec j i) as [-> | Hne]; [apply IH, Hrest |].
  rewrite accumulate_near.
  - cbn [bind]. apply IH, Hrest.
  - apply (Hnear 0%nat other); [reflexivity | lia].
Qed.

Lemma force_loop_app (i : nat) (self : Body.t) (front back : list Body.t) :
  forall (j : nat) (f : R * R),
    force_loop i self j (front ++ back) f =
      let* f' := force_loop i self j front f in
      force_loop i self (j + length front) back f'.
Proof.
  induction front as [| other front IH]; intros j f;
    cbn [force_loop app length bind].
  - rewrite Nat.add_0_r. reflexivity.
  - replace (j + S (length front))%nat with (S j + length front)%nat by lia.
    destruct (j =? i)%nat; [apply IH |].
    destruct (accumulate self other f) as [f' |]; cbn [bind];
      [apply IH | reflexivity].
Qed.

(** X3.  A body with no other body more than [1000] m away feels no
    force: its step keeps the velocity and moves it by [v * DT].  This
    covers the store that holds one body only. *)
Theorem X3_free_motion (i : nat) (s : state) (self : Body.t) :
  bodies s !! i = Some self ->
  Body.mass self <> 0 ->
  (forall (j : nat) (o : Body.t),
     bodies s !! j = Some o -> j <> i -> separation self o <= 1000) ->
  exists (s' : state) (self' : Body.t),
    update_position i s = Ok s' /\
    bodies s' !! i = Some self' /\
    Body.vx self' = Body.vx self /\ Body.vy self' = Body.vy self /\
    Body.x self' = Body.x self + Body.vx self * DT /\
    Body.y self' = Body.y self + Body.vy self * DT.
Proof.
  intros Hi Hm Hnear.
  destruct (update_position_ok i s self Hi Hm) as (f & Hf & Hup).
  rewrite force_loop_near in Hf.
  - injection Hf as <-.
    exists (set_bodies s (<[i := stepped s self (0, 0)]> (bodies s))),
           (stepped s self (0, 0)).
    split; [exact Hup |]. split.
    { cbn [bodies set_bodies]. apply list_lookup_insert_eq.
      eapply lookup_lt_Some, Hi. }
    cbn [stepped Body.vx Body.vy Body.x Body.y fst snd].
    repeat split; field; exact Hm.
  - intros k o Hk Hne. apply (Hnear k o Hk) in Hne. lra.
Qed.

Lemma X3_free_motion_witness :
  bodies close_pair !! 0%nat = Some body_A /\
  Body.mass body_A <> 0 /\
  exists (s' : state) (self' : Body.t),
    update_position 0 close_pair = Ok s' /\
    bodies s' !! 0%nat = Some self' /\
    Body.vx self' = Body.vx body_A /\ Body.vy self' = Body.vy body_A /\
    Body.x self' = Body.x body_A + Body.vx body_A * DT /\
    Body.y self' = Body.y body_A + Body.vy body_A * DT.
Proof.
  assert (Hm : Body.mass body_A <> 0) by (sample_fields; lra).
  assert (Hnear : forall (j : nat) (o : Body.t),
             bodies close_pair !! j = Some o -> j <> 0%nat ->
             separation body_A o <= 1000).
  { intros [| [| j]] o Hj Hne; [contradiction | | discriminate Hj].
    injection Hj as <-. rewrite separation_on_axis; sample_fields; lra. }
  split; [reflexivity |]. split; [exact Hm |].
  exact (X3_free_motion 0 close_pair body_A eq_refl Hm Hnear).
Defined.

(** X4.  Adding a body at the end of the store adds its pair force to the
    force on every body already there: the sums of the loop over the
    longer store are the sums over the shorter one plus the force of the
    pair. *)
Theorem X4_superposition (i : nat) (self other : Body.t)
    (store : list Body.t) (f c : R * R) :
  (i < length store)%nat ->
  force_loop i self 0 store (0, 0) = Ok f ->
  pair_force self other = Ok c ->
  force_loop i self 0 (store ++ [other]) (0, 0) = Ok (f.1 + c.1, f.2 + c.2).
Proof.
  intros Hi Hf Hc. rewrite force_loop_app, Hf. cbn [bind force_loop].
  destruct (Nat.eqb_spec (0 + length store) i) as [Heq | _]; [lia |].
  destruct (accumulate_total self other f) as (c' & Hc' & ->).
  assert (c' = c) as -> by congruence. reflexivity.
Qed.

Lemma X4_superposition_witness :
  (0 < length [body_A; body_B])%nat /\
  force_loop 0 body_A 0 [body_A; body_B] (0, 0) = Ok force_A /\
  0 < force_A.1 /\
  exists c : R * R,
    pair_force body_A (body_at 7200) = Ok c /\
    0 < c.1 /\
    force_loop 0 body_A 0 ([body_A; body_B] ++ [body_at 7200]) (0, 0) =
      Ok (force_A.1 + c.1, force_A.2 + c.2).
Proof.
  assert (Hlen : (0 < length [body_A; body_B])%nat) by (cbn; lia).
  assert (Hsep : separation body_A (body_at 7200) = 7200)
    by (rewrite separation_on_axis; sample_fields; lra).
  assert (Hc : pair_force body_A (body_at 7200) =
               Ok (G * 1e15 * 1e15 / 7200 ^ 2 * (7200 - 0) / 7200,
                   G * 1e15 * 1e15 / 7200 ^ 2 * (0 - 0) / 7200)).
  { rewrite pair_force_far by (rewrite Hsep; lra). rewrite Hsep.
    reflexivity. }
  split; [exact Hlen |]. split; [exact force_on_A |].
  split; [unfold force_A, G; cbn [fst]; lra |].
  eexists. split; [exact Hc |].
  split; [unfold G; cbn [fst]; lra |].
  exact (X4_superposition 0 body_A (body_at 7200) [body_A; body_B] force_A _
           Hlen force_on_A Hc).
Defined.

(** X5.  Beyond the distance floor gravity attracts: for positive masses
    each component of the force the loop adds for a pair has the sign of
    that component of the displacement from the body the loop is run for
    to the other body, so the force has a positive component along the
    displacement. *)
Theorem X5_attraction (self other : Body.t) :
  separation self other > 1000 ->
  0 < Body.mass self -> 0 < Body.mass other ->
  exists fx fy : R,
    pair_force self other = Ok (fx, fy) /\
    fx * (Body.x other - Body.x self) + fy * (Body.y other - Body.y self) > 0 /\
    (0 < Body.x other - Body.x self -> 0 < fx) /\
    (Body.x other - Body.x self < 0 -> fx < 0) /\
    (Body.x other - Body.x self = 0 -> fx = 0) /\
    (0 < Body.y other - Body.y self -> 0 < fy) /\
    (Body.y other - Body.y self < 0 -> fy < 0) /\
    (Body.y other - Body.y self = 0 -> fy = 0).
Proof.
  intros Hr Hs Ho. eexists _, _. split; [apply pair_force_far; lra |].
  pose proof (force_strength_pos self other Hs Ho ltac:(lra)) as HF.
  pose proof (separation_sqr self other) as Hsq.
  set (r := separation self other) in *.
  set (F := G * Body.mass self * Body.mass other / r ^ 2) in *.
  set (dx := Body.x other - Body.x self) in *.
  set (dy := Body.y other - Body.y self) in *.
  assert (Hk : 0 < F / r) by (apply Rdiv_lt_0_compat; lra).
  assert (Hfx : F * dx / r = F / r * dx) by (field; lra).
  assert (Hfy : F * dy / r = F / r * dy) by (field; lra).
  rewrite Hfx, Hfy. split.
  - replace (F / r * dx * dx + F / r * dy * dy) with (F * r).
    + apply Rmult_lt_0_compat; lra.
    + field_simplify_eq; [| lra]. rewrite Hsq. ring.
  - repeat split; intros Hd; nra.
Qed.

Lemma X5_attraction_witness :
  separation body_A body_off_axis > 1000 /\
  0 < Body.mass body_A /\ 0 < Body.mass body_off_axis /\
  0 < Body.x body_off_axis - Body.x body_A /\
  0 < Body.y body_off_axis - Body.y body_A /\
  exists fx fy : R,
    pair_force body_A body_off_axis = Ok (fx, fy) /\
    fx * (Body.x body_off_axis - Body.x body_A)
      + fy * (Body.y body_off_axis - Body.y body_A) > 0 /\
    0 < fx /\ 0 < fy.
Proof.
  assert (Hsep : separation body_A body_off_axis = 5000).
  { unfold separation. cbv [body_A body_off_axis Body.init Body.x Body.y].
    replace ((3000 - 0) ^ 2 + (4000 - 0) ^ 2) with (5000 * 5000) by lra.
    apply sqrt_square. lra. }
  assert (Hr : separation body_A body_off_axis > 1000) by lra.
  assert (HA : 0 < Body.mass body_A) by (sample_fields; lra).
  assert (HC : 0 < Body.mass body_off_axis)
    by (cbv [body_off_axis Body.init Body.mass]; lra).
  assert (Hdx : 0 < Body.x body_off_axis - Body.x body_A)
    by (cbv [body_A body_off_axis Body.init Body.x]; lra).
  assert (Hdy : 0 < Body.y body_off_axis - Body.y body_A)
    by (cbv [body_A body_off_axis Body.init Body.y]; lra).
  split; [exact Hr |]. split; [exact HA |]. split; [exact HC |].
  split; [exact Hdx |]. split; [exact Hdy |].
  destruct (X5_attraction body_A body_off_axis Hr HA HC)
    as (fx & fy & Hf & Hdot & Hxp & _ & _ & Hyp & _).
  exists fx, fy. split; [exact Hf |]. split; [exact Hdot |].
  split; [exact (Hxp Hdx) | exact (Hyp Hdy)].
Defined.

(** ** Steps and frames *)

Lemma body_loop_massless_from (s : state) (m : nat) :
  forall (k : nat) (cur : list Body.t),
    (k + m)%nat = length cur ->
    Exists (fun b => Body.mass b = 0) (drop k cur) ->
    body_loop (seq k m) (set_bodies s cur) = Raise ZeroDivisionError.
Proof.
  induction m as [| m IH]; intros k cur Hk Hex.
  - rewrite drop_ge in Hex by lia. inversion Hex.
  - assert (Hklt : (k < length cur)%nat) by lia.
    destruct (lookup_lt_is_Some_2 cur k Hklt) as [self Hself].
    rewrite (drop_S _ _ _ Hself) in Hex.
    destruct (Req_dec_T (Body.mass self) 0) as [Hzero | Hm].
    + cbn [seq body_loop].
      rewrite (update_position_massless k (set_bodies s cur) self Hself Hzero).
      reflexivity.
    + apply Exists_cons in Hex as [Hzero | Hex]; [contradiction |].
      destruct (body_loop_cons k (seq (S k) m) (set_bodies s cur) self Hself Hm)
        as (f & _ & Hloop).
      cbn [seq]. rewrite Hloop, set_bodies_set_bodies.
      apply IH.
      * cbn [bodies set_bodies]. rewrite length_insert. lia.
      * cbn [bodies set_bodies]. rewrite drop_insert_lt by lia. exact Hex.
Qed.

Lemma handle_events_no_reset (evs : list event) :
  forall s : state,
    pan_invariant s ->
    Forall (fun ev => is_reset_click ev = false) evs ->
    exists s1 : state,
      handle_events evs s = Ok s1 /\ bodies s1 = bodies s.
Proof.
  induction evs as [| ev evs IH]; intros s Hpan Hno; cbn [handle_events].
  - exists s. auto.
  - apply Forall_cons in Hno as [Hclick Hno].
    assert (Hev : exists s' : state,
               handle_event ev s = Ok s' /\ bodies s' = bodies s /\
               pan_invariant s').
    { destruct ev as [| k | button pos | button pos | pos |];
        cbn [handle_event is_reset_click] in *;
        [ | destruct k
          | destruct (button =? 1)%Z; cbn [andb] in Hclick; rewrite ?Hclick
          | destruct (button =? 1)%Z
          | destruct (panning s) eqn:Hp; [destruct (Hpan Hp) as [last ->] |]
          | ];
        cbn [subscript bind];
        (eexists; split; [reflexivity |]); (split; [reflexivity |]);
        unfold pan_invariant in Hpan |- *; cbn;
        first [exact Hpan | (intros H; discriminate H) | eauto]. }
    destruct Hev as (s' & -> & Hb & Hpan'). cbn [bind].
    destruct (IH s' Hpan' Hno) as (s1 & Hs1 & Hb1).
    exists s1. split; [exact Hs1 | congruence].
Qed.

(** X8.  A store that holds a body of mass zero stops the program: the
    loop over the bodies raises [ZeroDivisionError] when it reaches that
    body, and so does every frame whose events leave the store in place,
    that is every frame without a click on the reset control. *)
Theorem X8_massless_body_raises (evs : list event) (s : state) :
  Exists (fun b => Body.mass b = 0) (bodies s) ->
  pan_invariant s ->
  Forall (fun ev => is_reset_click ev = false) evs ->
  body_loop (seq 0 (length (bodies s))) s = Raise ZeroDivisionError /\
  frame evs s = Raise ZeroDivisionError.
Proof.
  intros Hex Hpan Hno.
  assert (Hloop : forall s0 : state,
             Exists (fun b => Body.mass b = 0) (bodies s0) ->
             body_loop (seq 0 (length (bodies s0))) s0 =
               Raise ZeroDivisionError).
  { intros s0 Hex0. rewrite <- (set_bodies_bodies s0) at 2.
    apply body_loop_massless_from; [reflexivity | exact Hex0]. }
  split; [exact (Hloop s Hex) |].
  destruct (handle_events_no_reset evs s Hpan Hno) as (s1 & Hs1 & Hb).
  unfold frame. rewrite Hs1. cbn [bind].
  rewrite Hloop by (rewrite Hb; exact Hex). reflexivity.
Qed.

Lemma X8_massless_body_raises_witness :
  Exists (fun b => Body.mass b = 0) (bodies with_massless) /\
  pan_invariant with_massless /\
  Forall (fun ev => is_reset_click ev = false)
    [KEYDOWN K_z; press; MOUSEMOTION (210, 190)%Z; release] /\
  body_loop (seq 0 (length (bodies with_massless))) with_massless =
    Raise ZeroDivisionError /\
  frame [KEYDOWN K_z; press; MOUSEMOTION (210, 190)%Z; release]
    with_massless = Raise ZeroDivisionError.
Proof.
  assert (Hex : Exists (fun b => Body.mass b = 0) (bodies with_massless)).
  { apply Exists_cons_tl, Exists_cons_hd. reflexivity. }
  assert (Hpan : pan_invariant with_massless) by (intros H; discriminate H).
  assert (Hno : Forall (fun ev => is_reset_click ev = false)
                  [KEYDOWN K_z; press; MOUSEMOTION (210, 190)%Z; release])
    by (repeat constructor).
  split; [exact Hex |]. split; [exact Hpan |]. split; [exact Hno |].
  exact (X8_massless_body_raises _ with_massless Hex Hpan Hno).
Defined.

(** X9.  The step of one body writes to that body only: the store keeps
    its length, every other body is as before, and the stepped body keeps
    its mass, radius, colour and name.  Camera, zoom, pan state and the
    loop flags are not touched. *)
Theorem X9_step_is_local (i : nat) (s : state) (self : Body.t) :
  bodies s !! i = Some self ->
  Body.mass self <> 0 ->
  exists (s' : state) (self' : Body.t),
    update_position i s = Ok s' /\
    length (bodies s') = length (bodies s) /\
    bodies s' !! i = Some self' /\ same_identity self self' /\
    (forall j : nat, j <> i -> bodies s' !! j = bodies s !! j) /\
    set_bodies s' (bodies s) = s.
Proof.
  intros Hi Hm.
  destruct (update_position_ok i s self Hi Hm) as (f & _ & Hup).
  eexists _, (stepped s self f). split; [exact Hup |].
  cbn [bodies set_bodies]. split; [apply length_insert |]. split.
  { apply list_lookup_insert_eq. eapply lookup_lt_Some, Hi. }
  split; [repeat split |]. split.
  - intros j Hj. apply list_lookup_insert_ne. congruence.
  - rewrite set_bodies_set_bodies. apply set_bodies_bodies.
Qed.

Lemma X9_step_is_local_witness :
  bodies two_bodies !! 1%nat = Some body_B /\
  Body.mass body_B <> 0 /\
  exists (s' : state) (self' : Body.t),
    update_position 1 two_bodies = Ok s' /\
    length (bodies s') = length (bodies two_bodies) /\
    bodies s' !! 1%nat = Some self' /\ same_identity body_B self' /\
    (forall j : nat, j <> 1%nat -> bodies s' !! j = bodies two_bodies !! j) /\
    set_bodies s' (bodies two_bodies) = two_bodies.
Proof.
  assert (Hm : Body.mass body_B <> 0) by (sample_fields; lra).
  split; [reflexivity |]. split; [exact Hm |].
  exact (X9_step_is_local 1 two_bodies body_B eq_refl Hm).
Defined.

Lemma handle_event_bodies_or_reset (ev : event) (s s' : state) :
  handle_event ev s = Ok s' ->
  bodies s' = bodies s \/ bodies s' = initial_bodies.
Proof.
  intros Hev. destruct (is_reset_click ev) eqn:Hclick.
  - right. destruct ev as [| k | button pos | button pos | pos |];
      try discriminate Hclick.
    cbn [is_reset_click] in Hclick.
    apply andb_prop in Hclick as [Hb Hc].
    cbn [handle_event] in Hev. rewrite Hb, Hc in Hev.
    rewrite (reset_simulation_ok s _ initial_bodies_ok) in Hev.
    cbn [bind] in Hev. injection Hev as <-. reflexivity.
  - left. exact (handle_event_bodies ev s s' Hclick Hev).
Qed.

Lemma initial_bodies_identity : Forall2 identity_of planets_data initial_bodies.
Proof.
  unfold planets_data, initial_bodies. cbn [tail map].
  repeat (constructor; [repeat split |]). constructor.
Qed.

Lemma handle_events_identity (evs : list event) :
  forall s s1 : state,
    Forall2 identity_of planets_data (bodies s) ->
    handle_events evs s = Ok s1 ->
    Forall2 identity_of planets_data (bodies s1).
Proof.
  induction evs as [| ev evs IH]; intros s s1 Hid Hevs;
    cbn [handle_events] in Hevs.
  - injection Hevs as <-. exact Hid.
  - destruct (handle_event ev s) as [s' |] eqn:Hev; cbn [bind] in Hevs;
      [| discriminate].
    apply (IH s' s1); [| exact Hevs].
    destruct (handle_event_bodies_or_reset ev s s' Hev) as [-> | ->];
      [exact Hid | exact initial_bodies_identity].
Qed.

Lemma frame_identity (evs : list event) (s s' : state) :
  well_formed s ->
  Forall2 identity_of planets_data (bodies s) ->
  frame evs s = Ok s' ->
  Forall2 identity_of planets_data (bodies s').
Proof.
  intros Hwf Hid Hframe.
  destruct (frame_well_formed evs s Hwf)
    as (s1 & bs' & Hs1 & _ & _ & Hframe' & Hlen & Hall).
  rewrite Hframe' in Hframe. injection Hframe as <-.
  cbn [bodies set_trail_reset set_bodies].
  pose proof (handle_events_identity evs s s1 Hid Hs1) as Hid1.
  apply Forall2_same_length_lookup in Hid1 as [Hlen1 Hid1].
  apply Forall2_same_length_lookup_2; [congruence |].
  intros i d b Hd Hb.
  assert (Hlt : (i < length (bodies s1))%nat)
    by (rewrite <- Hlen; eapply lookup_lt_Some, Hb).
  destruct (lookup_lt_is_Some_2 _ _ Hlt) as [self Hself].
  destruct (Hall i self Hself) as (f & Hf).
  assert (b = visited s1 self f) as -> by congruence.
  pose proof (Hid1 i d self Hd Hself) as Hself_id.
  unfold visited. destruct (trail_reset s1); exact Hself_id.
Qed.

(** X10.  In every state of a run the store holds the ten bodies of
    [planets_data], in the order of the data and each with the mass,
    radius, colour and name of its record: stepping changes none of them
    and a reset builds them again. *)
Theorem X10_body_set_is_fixed (s : state) :
  reachable s ->
  Forall2 identity_of planets_data (bodies s) /\
  length (bodies s) = 10%nat.
Proof.
  intros Hreach.
  assert (Hid : Forall2 identity_of planets_data (bodies s)).
  { induction Hreach as [| ev s s' Hreach IH Hev | evs s s' Hreach IH _ Hframe].
    - exact initial_bodies_identity.
    - destruct (handle_event_bodies_or_reset ev s s' Hev) as [-> | ->];
        [exact IH | exact initial_bodies_identity].
    - exact (frame_identity evs s s' (reachable_well_formed s Hreach) IH Hframe). }
  split; [exact Hid |].
  apply Forall2_length in Hid. rewrite <- Hid. reflexivity.
Qed.

Lemma X10_body_set_is_fixed_witness :
  reachable start /\
  Forall2 identity_of planets_data (bodies start) /\
  length (bodies start) = 10%nat.
Proof.
  split; [exact reachable_start |].
  exact (X10_body_set_is_fixed start reachable_start).
Defined.

(** X11.  The loop over the bodies leaves the view alone: after a frame,
    camera, zoom flag, pan state and [running] are what the events of the
    frame made them, and the trail-reset flag is down again, whatever the
    events did to it. *)
Theorem X11_frame_keeps_view (evs : list event) (s : state) :
  well_formed s ->
  exists s1 s' : state,
    handle_events evs s = Ok s1 /\
    frame evs s = Ok s' /\
    camera_x s' = camera_x s1 /\ camera_y s' = camera_y s1 /\
    zoomed s' = zoomed s1 /\
    panning s' = panning s1 /\ last_mouse_pos s' = last_mouse_pos s1 /\
    running s' = running s1 /\
    trail_reset s' = false /\
    length (bodies s') = length (bodies s1).
Proof.
  intros Hwf.
  destruct (frame_well_formed evs s Hwf)
    as (s1 & bs' & Hs1 & _ & _ & Hframe & Hlen & _).
  exists s1, (set_trail_reset (set_bodies s1 bs') false).
  split; [exact Hs1 |]. split; [exact Hframe |].
  repeat split. exact Hlen.
Qed.

Lemma X11_frame_keeps_view_witness :
  well_formed two_bodies /\
  exists s1 s' : state,
    handle_events [KEYDOWN K_LEFT; KEYDOWN K_z] two_bodies = Ok s1 /\
    frame [KEYDOWN K_LEFT; KEYDOWN K_z] two_bodies = Ok s' /\
    camera_x s' = camera_x s1 /\ camera_y s' = camera_y s1 /\
    zoomed s' = zoomed s1 /\
    panning s' = panning s1 /\ last_mouse_pos s' = last_mouse_pos s1 /\
    running s' = running s1 /\
    trail_reset s' = false /\
    length (bodies s') = length (bodies s1).
Proof.
  assert (Hwf : well_formed two_bodies).
  { split; [repeat constructor; sample_fields; lra |].
    intros H. discriminate H. }
  split; [exact Hwf |].
  exact (X11_frame_keeps_view [KEYDOWN K_LEFT; KEYDOWN K_z] two_bodies Hwf).
Defined.

(** ** The trail over many steps *)

(** X12.  A trail of at most [200] points that receives further points
    one by one holds the last [200] of all its points, oldest first. *)
Theorem X12_trail_keeps_latest (ps tr : list (Z * Z)) :
  (length tr <= 200)%nat ->
  fold_left push_trail ps tr =
    drop (length (tr ++ ps) - 200) (tr ++ ps).
Proof.
  revert tr. induction ps as [| p ps IH]; intros tr Hlen; cbn [fold_left].
  - rewrite app_nil_r. replace (length tr - 200)%nat with 0%nat by lia.
    reflexivity.
  - destruct (decide (length tr < 200)%nat) as [Hlt | Hge].
    + rewrite push_trail_short by exact Hlt.
      rewrite IH by (rewrite length_app; cbn [length]; lia).
      rewrite <- app_assoc. reflexivity.
    + rewrite push_trail_full by lia.
      destruct tr as [| q tr]; [cbn [length] in Hge; lia |].
      cbn [tail]. cbn [length] in Hlen, Hge.
      rewrite IH by (rewrite length_app; cbn [length]; lia).
      rewrite <- !app_assoc. cbn [app length].
      assert (Hfull : (200 <= length (tr ++ p :: ps))%nat)
        by (rewrite length_app; cbn [length]; lia).
      replace (S (length (tr ++ p :: ps)) - 200)%nat
        with (S (length (tr ++ p :: ps) - 200))%nat by lia.
      reflexivity.
Qed.

Lemma X12_trail_keeps_latest_witness :
  (length [(1, 1); (2, 2)]%Z <= 200)%nat /\
  fold_left push_trail [(3, 3); (4, 4)]%Z [(1, 1); (2, 2)]%Z =
    drop (length ([(1, 1); (2, 2)] ++ [(3, 3); (4, 4)])%Z - 200)
      ([(1, 1); (2, 2)] ++ [(3, 3); (4, 4)])%Z.
Proof.
  assert (Hlen : (length [(1, 1); (2, 2)]%Z <= 200)%nat) by (cbn; lia).
  split; [exact Hlen |].
  exact (X12_trail_keeps_latest [(3, 3); (4, 4)]%Z [(1, 1); (2, 2)]%Z Hlen).
Defined.

(** ** Keyboard and pointer *)

(** X13.  Key presses add up: after any run of key presses the camera has
    moved by [50] per arrow key, right and down counting up, left and up
    counting down, and the zoom flag has flipped once per press of [z];
    bodies, pan state and [running] are as before, and the trail-reset
    flag is up as soon as one of the five keys was among them. *)
Theorem X13_key_presses_add_up (ks : list key) :
  forall s : state,
    exists s' : state,
      handle_events (map KEYDOWN ks) s = Ok s' /\
      camera_x s' =
        (camera_x s + 50 * (presses K_RIGHT ks - presses K_LEFT ks))%Z /\
      camera_y s' =
        (camera_y s + 50 * (presses K_DOWN ks - presses K_UP ks))%Z /\
      zoomed s' = xorb (zoomed s) (Z.odd (presses K_z ks)) /\
      trail_reset s' =
        trail_reset s || existsb (fun k => negb (key_eqb K_other k)) ks /\
      bodies s' = bodies s /\
      panning s' = panning s /\ last_mouse_pos s' = last_mouse_pos s /\
      running s' = running s.
Proof.
  induction ks as [| k ks IH]; intros s; cbn [map handle_events].
  - exists s. cbn [presses existsb Z.odd]. rewrite xorb_false_r, orb_false_r.
    repeat split; lia.
  - destruct k; cbn [handle_event bind];
      match goal with
      | |- context [handle_events _ ?s1] =>
          destruct (IH s1) as (s' & -> & Hx & Hy & Hz & Ht & Hb & Hp & Hl & Hr)
      end;
      exists s'; (split; [reflexivity |]);
      rewrite Hx, Hy, Hz, Ht, Hb, Hp, Hl, Hr;
      cbn [presses key_eqb existsb negb camera_x camera_y zoomed trail_reset
           bodies panning last_mouse_pos running set_trail_reset set_zoomed
           set_camera];
      rewrite ?Z.odd_add; cbn [Z.odd];
      rewrite ?orb_true_r, ?orb_false_l;
      repeat split; try lia;
      try (destruct (zoomed s), (Z.odd (presses K_z ks)); reflexivity).
Qed.

(** X14.  A drag telescopes: while the button is held with the anchor at
    [p0], any run of pointer moves that ends at [pn] shifts the camera by
    [p0 - pn] in all, however the pointer got there; the anchor is then
    [pn], the trail-reset flag is up and the bodies are as before. *)
Theorem X14_drag_telescopes (ps : list (Z * Z)) :
  forall (s : state) (p0 pn : Z * Z),
    panning s = true ->
    last_mouse_pos s = Some p0 ->
    last ps = Some pn ->
    exists s' : state,
      handle_events (map MOUSEMOTION ps) s = Ok s' /\
      camera_x s' = (camera_x s + (p0.1 - pn.1))%Z /\
      camera_y s' = (camera_y s + (p0.2 - pn.2))%Z /\
      last_mouse_pos s' = Some pn /\ panning s' = true /\
      trail_reset s' = true /\
      bodies s' = bodies s /\ zoomed s' = zoomed s /\ running s' = running s.
Proof.
  induction ps as [| p ps IH]; intros s p0 pn Hpan Hlast Hpn;
    [discriminate Hpn |].
  cbn [map handle_events handle_event]. rewrite Hpan, Hlast.
  cbn [subscript bind].
  destruct ps as [| p' ps].
  - injection Hpn as <-. cbn [map handle_events].
    eexists. split; [reflexivity |]. repeat split; try reflexivity.
    exact Hpan.
  - rewrite last_cons_cons in Hpn.
    match goal with
    | |- context [handle_events _ ?s1] =>
        destruct (IH s1 p pn Hpan eq_refl Hpn)
          as (s' & -> & Hx & Hy & Hl & Hp & Ht & Hb & Hz & Hr)
    end.
    exists s'. split; [reflexivity |].
    rewrite Hx, Hy, Hb, Hz, Hr.
    cbn [camera_x camera_y bodies zoomed running set_trail_reset
         set_last_mouse_pos set_camera].
    repeat split; try assumption; lia.
Qed.

Lemma X14_drag_telescopes_witness :
  panning dragging = true /\
  last_mouse_pos dragging = Some (200, 200)%Z /\
  last [(210, 190); (150, 260); (230, 200)]%Z = Some (230, 200)%Z /\
  exists s' : state,
    handle_events
      (map MOUSEMOTION [(210, 190); (150, 260); (230, 200)]%Z) dragging =
      Ok s' /\
    camera_x s' = (camera_x dragging + ((200, 200).1 - (230, 200).1))%Z /\
    camera_y s' = (camera_y dragging + ((200, 200).2 - (230, 200).2))%Z /\
    last_mouse_pos s' = Some (230, 200)%Z /\ panning s' = true /\
    trail_reset s' = true /\
    bodies s' = bodies dragging /\ zoomed s' = zoomed dragging /\
    running s' = running dragging.
Proof.
  split; [reflexivity |]. split; [reflexivity |]. split; [reflexivity |].
  exact (X14_drag_telescopes [(210, 190); (150, 260); (230, 200)]%Z dragging
           (200, 200)%Z (230, 200)%Z eq_refl eq_refl eq_refl).
Defined.

(** X15.  Without the button held, pointer moves do nothing: the state
    after any run of moves is the state before. *)
Theorem X15_moves_without_button (ps : list (Z * Z)) (s : state) :
  panning s = false ->
  handle_events (map MOUSEMOTION ps) s = Ok s.
Proof.
  intros Hpan. induction ps as [| p ps IH]; cbn [map handle_events];
    [reflexivity |].
  cbn [handle_event]. rewrite Hpan. cbn [bind]. exact IH.
Qed.

Lemma X15_moves_without_button_witness :
  panning two_bodies = false /\
  handle_events (map MOUSEMOTION [(210, 190); (150, 260)]%Z) two_bodies =
    Ok two_bodies.
Proof.
  split; [reflexivity |].
  exact (X15_moves_without_button [(210, 190); (150, 260)]%Z two_bodies
           eq_refl).
Defined.

(** ** Leaving the loop *)

Lemma handle_events_stopped (evs : list event) :
  forall s : state,
    well_formed s ->
    running s = false ->
    exists s1 : state, handle_events evs s = Ok s1 /\ running s1 = false.
Proof.
  induction evs as [| ev evs IH]; intros s Hwf Hrun; cbn [handle_events].
  - exists s. auto.
  - destruct (handle_event_well_formed ev s Hwf)
      as (s' & Hs' & Hwf' & _ & _ & Hkeep).
    rewrite Hs'. cbn [bind]. apply IH; [exact Hwf' |].
    destruct ev; try (rewrite Hkeep by discriminate; exact Hrun).
    cbn [handle_event] in Hs'. injection Hs' as <-. reflexivity.
Qed.

Lemma handle_events_quit (evs : list event) :
  forall s : state,
    well_formed s ->
    In QUIT evs ->
    exists s1 : state, handle_events evs s = Ok s1 /\ running s1 = false.
Proof.
  induction evs as [| ev evs IH]; intros s Hwf Hin; [destruct Hin |].
  cbn [handle_events].
  destruct (handle_event_well_formed ev s Hwf) as (s' & Hs' & Hwf' & _).
  rewrite Hs'. cbn [bind]. destruct Hin as [-> | Hin].
  - apply handle_events_stopped; [exact Hwf' |].
    cbn [handle_event] in Hs'. injection Hs' as <-. reflexivity.
  - apply IH; assumption.
Qed.

(** X16.  [QUIT] ends the loop after the frame it arrives in: that frame
    is run to its end, with the events that follow [QUIT] in its batch and
    with the step of every body, and no later batch is looked at. *)
Theorem X16_quit_ends_after_frame (evs : list event) (s : state) :
  well_formed s ->
  running s = true ->
  In QUIT evs ->
  exists s' : state,
    frame evs s = Ok s' /\
    running s' = false /\
    forall rest : list (list event), main_loop (evs :: rest) s = Ok s'.
Proof.
  intros Hwf Hrun Hin.
  destruct (frame_total evs s Hwf)
    as (s1 & s' & Hs1 & Hframe & _ & _ & _ & _ & _ & _ & Hrun' & _).
  destruct (handle_events_quit evs s Hwf Hin) as (s1' & Hs1' & Hstop).
  assert (s1' = s1) as -> by congruence.
  exists s'. split; [exact Hframe |].
  assert (Hoff : running s' = false) by congruence.
  split; [exact Hoff |].
  intros rest. cbn [main_loop]. rewrite Hrun, Hframe. cbn [bind].
  destruct rest; cbn [main_loop]; [reflexivity |]. rewrite Hoff. reflexivity.
Qed.

Lemma X16_quit_ends_after_frame_witness :
  well_formed two_bodies /\
  running two_bodies = true /\
  In QUIT [KEYDOWN K_z; QUIT; KEYDOWN K_LEFT] /\
  exists s' : state,
    frame [KEYDOWN K_z; QUIT; KEYDOWN K_LEFT] two_bodies = Ok s' /\
    running s' = false /\
    forall rest : list (list event),
      main_loop ([KEYDOWN K_z; QUIT; KEYDOWN K_LEFT] :: rest) two_bodies =
        Ok s'.
Proof.
  assert (Hwf : well_formed two_bodies).
  { split; [repeat constructor; sample_fields; lra |].
    intros H. discriminate H. }
  assert (Hin : In QUIT [KEYDOWN K_z; QUIT; KEYDOWN K_LEFT])
    by (right; left; reflexivity).
  split; [exact Hwf |]. split; [reflexivity |]. split; [exact Hin |].
  exact (X16_quit_ends_after_frame [KEYDOWN K_z; QUIT; KEYDOWN K_LEFT]
           two_bodies Hwf eq_refl Hin).
Defined.

Lemma main_loop_app (front back : list (list event)) :
  forall s : state,
    main_loop (front ++ back) s =
      let* s' := main_loop front s in main_loop back s'.
Proof.
  induction front as [| evs front IH]; intros s; cbn [app main_loop bind].
  - reflexivity.
  - destruct (running s) eqn:Hrun.
    + destruct (frame evs s) as [s' |]; cbn [bind]; [apply IH | reflexivity].
    + cbn [bind]. destruct back; cbn [main_loop]; [reflexivity |].
      rewrite Hrun. reflexivity.
Qed.

(** ** More on the projection *)

Lemma int_IZR (z : Z) : int (IZR z) = z.
Proof.
  destruct (Z_lt_le_dec z 0) as [Hneg | Hpos].
  - apply int_unique_neg; [apply (IZR_lt z 0), Hneg | lra].
  - apply int_unique_nonneg; [apply (IZR_le 0 z), Hpos | lra].
Qed.

Lemma int_monotone (u v : R) : u <= v -> (int u <= int v)%Z.
Proof.
  intros Huv.
  destruct (Rlt_le_dec u 0) as [Hu | Hu], (Rlt_le_dec v 0) as [Hv | Hv].
  - pose proof (int_neg u Hu) as Hiu. pose proof (int_neg v Hv) as Hiv.
    assert (Hlt : IZR (int u) < IZR (int v + 1)) by (rewrite plus_IZR; lra).
    apply lt_IZR in Hlt. lia.
  - pose proof (int_neg u Hu) as Hiu. pose proof (int_nonneg v Hv) as Hiv.
    assert (Hlo : IZR (int u) < IZR 1) by lra.
    assert (Hhi : IZR (-1) < IZR (int v)) by lra.
    apply lt_IZR in Hlo, Hhi. lia.
  - lra.
  - pose proof (int_nonneg u Hu) as Hiu. pose proof (int_nonneg v Hv) as Hiv.
    assert (Hlt : IZR (int u) < IZR (int v + 1)) by (rewrite plus_IZR; lra).
    apply lt_IZR in Hlt. lia.
Qed.

Lemma current_scale_pos (s : state) : 0 < current_scale s.
Proof.
  unfold current_scale, ZOOM_SCALE, SCALE. destruct (zoomed s); lra.
Qed.

(** X17.  The world origin is drawn at the viewport center moved back by
    the camera offset, at either zoom level; any other point is drawn
    less than one pixel away, in each coordinate, from where the exact
    projection puts it. *)
Theorem X17_projection_of_origin (s : state) :
  screen_x s 0 = (450 - camera_x s)%Z /\
  screen_y s 0 = (300 - camera_y s)%Z /\
  forall v : R,
    Rabs (IZR (screen_x s v)
          - (v * current_scale s + 450 - IZR (camera_x s))) < 1 /\
    Rabs (IZR (screen_y s v)
          - (v * current_scale s + 300 - IZR (camera_y s))) < 1.
Proof.
  assert (Herr : forall u : R, Rabs (IZR (int u) - u) < 1).
  { intros u. apply Rabs_def1; destruct (Rlt_le_dec u 0) as [Hu | Hu];
      try (pose proof (int_neg u Hu); lra);
      pose proof (int_nonneg u Hu); lra. }
  unfold screen_x, screen_y.
  change (WIDTH `div` 2)%Z with 450%Z. change (HEIGHT `div` 2)%Z with 300%Z.
  split; [| split].
  - replace (0 * current_scale s + 450 - IZR (camera_x s))
      with (IZR (450 - camera_x s)) by (rewrite minus_IZR; lra).
    apply int_IZR.
  - replace (0 * current_scale s + 300 - IZR (camera_y s))
      with (IZR (300 - camera_y s)) by (rewrite minus_IZR; lra).
    apply int_IZR.
  - intros v. split; apply Herr.
Qed.

(** X18.  The projection keeps the order of the world coordinates: of two
    points the one further right in the world is not drawn further left,
    and likewise for up and down, at either zoom level and for every
    camera offset. *)
Theorem X18_projection_is_monotone (s : state) (v1 v2 : R) :
  v1 <= v2 ->
  (screen_x s v1 <= screen_x s v2)%Z /\ (screen_y s v1 <= screen_y s v2)%Z.
Proof.
  intros Hv. pose proof (current_scale_pos s) as Hs.
  unfold screen_x, screen_y. split; apply int_monotone; nra.
Qed.

Lemma X18_projection_is_monotone_witness :
  0 <= 2.8e10 /\
  (screen_x two_bodies 0 <= screen_x two_bodies 2.8e10)%Z /\
  (screen_y two_bodies 0 <= screen_y two_bodies 2.8e10)%Z.
Proof.
  assert (Hv : 0 <= 2.8e10) by lra.
  split; [exact Hv |]. exact (X18_projection_is_monotone two_bodies 0 2.8e10 Hv).
Defined.

(** ** The label *)

Lemma separation_self (a : Body.t) : separation a a = 0.
Proof.
  unfold separation.
  replace ((Body.x a - Body.x a) ^ 2 + (Body.y a - Body.y a) ^ 2)
    with 0 by ring.
  apply sqrt_0.
Qed.

Lemma sqrt_lt_30 (n : Z) : (0 <= n)%Z -> (sqrt (IZR n) < 30 <-> (n < 900)%Z).
Proof.
  intros Hn. assert (H30 : sqrt 900 = 30).
  { replace 900 with (30 * 30) by lra. apply sqrt_square. lra. }
  pose proof (IZR_le 0 n Hn) as Hn'. split.
  - intros Hlt. rewrite <- H30 in Hlt. apply sqrt_lt_0_alt in Hlt.
    apply lt_IZR. exact Hlt.
  - intros Hlt. rewrite <- H30. apply sqrt_lt_1_alt.
    split; [exact Hn' | apply (IZR_lt n 900), Hlt].
Qed.

(** X19.  With a body in the store, [draw] raises nothing on the way to
    the label.  The label is drawn exactly when the pointer lies inside
    the circle of radius [30] pixels around the point the body is drawn
    at; it then carries the name of the body and its distance to
    [bodies[0]] divided by [AU], which is never negative and is [0]
    for [bodies[0]] itself, and it is centred [radius + 15] pixels above
    the body. *)
Theorem X19_label (s : state) (b sun : Body.t) (mouse_pos : Z * Z) :
  bodies s !! 0%nat = Some sun ->
  exists o : option label,
    draw_label s b mouse_pos = Ok o /\
    (is_Some o <->
     ((mouse_pos.1 - screen_x s (Body.x b)) ^ 2
      + (mouse_pos.2 - screen_y s (Body.y b)) ^ 2 < 900)%Z) /\
    forall l : label,
      o = Some l ->
      label_name l = Body.name b /\
      label_dist l = separation sun b / AU /\
      0 <= label_dist l /\
      (b = sun -> label_dist l = 0) /\
      label_center l =
        (screen_x s (Body.x b),
         (screen_y s (Body.y b) - Body.radius b - 15)%Z).
Proof.
  intros Hsun. unfold draw_label. rewrite Hsun.
  set (n := ((mouse_pos.1 - screen_x s (Body.x b)) ^ 2
             + (mouse_pos.2 - screen_y s (Body.y b)) ^ 2)%Z).
  assert (Hn : (0 <= n)%Z) by (unfold n; nia).
  rewrite math_sqrt_ok by (apply (IZR_le 0 n), Hn). cbn [bind].
  assert (HAU : 0 < AU) by (unfold AU; lra).
  destruct (Rlt_dec (sqrt (IZR n)) 30) as [Hnear | Hfar].
  - exists (Some (mkLabel (Body.name b) (separation sun b / AU)
                    (screen_x s (Body.x b),
                     (screen_y s (Body.y b) - Body.radius b - 15)%Z))).
    split.
    { rewrite math_sqrt_ok by apply sum_squares_nonneg. cbn [bind].
      rewrite truediv_ok by lra. reflexivity. }
    split.
    + split; [intros _; apply sqrt_lt_30; assumption | intros _; eauto].
    + intros l [= <-]. cbv [label_name label_dist label_center].
      split; [reflexivity |]. split; [reflexivity |]. split.
      * apply Rmult_le_pos; [apply separation_nonneg |].
        left. apply Rinv_0_lt_compat, HAU.
      * split; [| reflexivity]. intros Heq.
        rewrite Heq, separation_self. lra.
  - exists None. split; [reflexivity |]. split.
    + split; [intros [l Hl]; discriminate Hl |].
      intros Hlt. apply sqrt_lt_30 in Hlt; [contradiction | exact Hn].
    + intros l Hl. discriminate Hl.
Qed.

Lemma X19_label_witness :
  bodies two_bodies !! 0%nat = Some body_A /\
  exists o : option label,
    draw_label two_bodies body_B (0, 0)%Z = Ok o /\
    (is_Some o <->
     (((0, 0).1 - screen_x two_bodies (Body.x body_B)) ^ 2
      + ((0, 0).2 - screen_y two_bodies (Body.y body_B)) ^ 2 < 900)%Z).
Proof.
  split; [reflexivity |].
  destruct (X19_label two_bodies body_B body_A (0, 0)%Z eq_refl)
    as (o & Ho & Hshown & _).
  exists o. split; assumption.
Defined.

(** ** Motion and view *)


Lemma accumulate_physics (self self' other other' : Body.t) (f : R * R) :
  same_physics self self' -> same_physics other other' ->
  accumulate self' other' f = accumulate self other f.
Proof.
  intros (Hx & Hy & _ & _ & Hm) (Hx' & Hy' & _ & _ & Hm').
  unfold accumulate, accumulate_with. rewrite Hx, Hy, Hm, Hx', Hy', Hm'.
  reflexivity.
Qed.

Lemma force_loop_physics (i : nat) (self self' : Body.t)
    (others others' : list Body.t) :
  same_physics self self' ->
  Forall2 same_physics others others' ->
  forall (j : nat) (f : R * R),
    force_loop i self' j others' f = force_loop i self j others f.
Proof.
  intros Hself Hothers.
  induction Hothers as [| o o' others others' Ho _ IH]; intros j f;
    cbn [force_loop]; [reflexivity |].
  destruct (j =? i)%nat; [apply IH |].
  rewrite (accumulate_physics self self' o o' f Hself Ho).
  destruct (accumulate self o f); cbn [bind]; [apply IH | reflexivity].
Qed.

Lemma body_loop_physics (idx : list nat) :
  forall s1 s2 s1' : state,
    Forall2 same_physics (bodies s1) (bodies s2) ->
    body_loop idx s1 = Ok s1' ->
    exists s2' : state,
      body_loop idx s2 = Ok s2' /\
      Forall2 same_physics (bodies s1') (bodies s2').
Proof.
  induction idx as [| i idx IH]; intros s1 s2 s1' Hsame Hloop;
    cbn [body_loop] in *.
  - injection Hloop as <-. exists s2. auto.
  - destruct (update_position i s1) as [s1a |] eqn:Hup; cbn [bind] in Hloop;
      [| discriminate].
    destruct (bodies s1 !! i) as [self |] eqn:Hi;
      [| unfold update_position in Hup; rewrite Hi in Hup; discriminate Hup].
    destruct (Forall2_lookup_l _ _ _ _ _ Hsame Hi) as (self' & Hi' & Hself).
    destruct (Req_dec_T (Body.mass self) 0) as [Hzero | Hm].
    { rewrite (update_position_massless i s1 self Hi Hzero) in Hup.
      discriminate Hup. }
    assert (Hm' : Body.mass self' <> 0)
      by (destruct Hself as (_ & _ & _ & _ & ->); exact Hm).
    destruct (update_position_ok i s1 self Hi Hm) as (f & Hf & Hup1).
    destruct (update_position_ok i s2 self' Hi' Hm') as (f' & Hf' & Hup2).
    rewrite (force_loop_physics i self self' _ _ Hself Hsame) in Hf'.
    assert (f' = f) as -> by congruence.
    rewrite Hup1 in Hup. injection Hup as <-.
    rewrite Hup2. cbn [bind].
    eapply IH; [| exact Hloop].
    assert (Hstep : same_physics (stepped s1 self f) (stepped s2 self' f)).
    { destruct Hself as (Hx & Hy & Hvx & Hvy & Hmass).
      unfold same_physics, stepped.
      cbv [Body.x Body.y Body.vx Body.vy Body.mass].
      cbv [Body.x Body.y Body.vx Body.vy Body.mass] in Hx, Hy, Hvx, Hvy, Hmass.
      rewrite Hx, Hy, Hvx, Hvy, Hmass. repeat split. }
    assert (Hins : Forall2 same_physics
                     (<[i := stepped s1 self f]> (bodies s1))
                     (<[i := stepped s2 self' f]> (bodies s2)))
      by (apply Forall2_insert; assumption).
    assert (Hlt1 : (i < length (bodies s1))%nat) by (eapply lookup_lt_Some, Hi).
    assert (Hlt2 : (i < length (bodies s2))%nat) by (eapply lookup_lt_Some, Hi').
    change (trail_reset (set_bodies s1 _)) with (trail_reset s1).
    change (trail_reset (set_bodies s2 _)) with (trail_reset s2).
    unfold clear_trail. cbn [bodies set_bodies].
    rewrite !list_lookup_insert_eq by assumption.
    destruct (trail_reset s1), (trail_reset s2); cbn [bodies set_bodies];
      rewrite ?list_insert_insert_eq;
      try exact Hins; apply Forall2_insert; try assumption; exact Hstep.
Qed.

(** X20.  The motion does not depend on the view: two states whose
    bodies agree in position, velocity and mass, whatever their camera
    offsets, zoom flags, pan states, trail-reset flags and trails, are
    taken by the loop over the bodies to states whose bodies agree in
    position, velocity and mass again. *)
Theorem X20_motion_ignores_view (s1 s2 : state) :
  Forall (fun b => Body.mass b <> 0) (bodies s1) ->
  Forall2 same_physics (bodies s1) (bodies s2) ->
  exists s1' s2' : state,
    body_loop (seq 0 (length (bodies s1))) s1 = Ok s1' /\
    body_loop (seq 0 (length (bodies s2))) s2 = Ok s2' /\
    Forall2 same_physics (bodies s1') (bodies s2').
Proof.
  intros Hmass Hsame.
  destruct (body_loop_spec s1 Hmass) as (bs' & Hloop & _).
  destruct (body_loop_physics _ s1 s2 _ Hsame Hloop) as (s2' & Hloop2 & Hsame').
  exists (set_bodies s1 bs'), s2'. split; [exact Hloop |].
  rewrite <- (Forall2_length _ _ _ Hsame). split; assumption.
Qed.

Lemma X20_motion_ignores_view_witness :
  Forall (fun b => Body.mass b <> 0) (bodies two_bodies) /\
  Forall2 same_physics (bodies two_bodies) (bodies two_bodies_other_view) /\
  exists s1' s2' : state,
    body_loop (seq 0 (length (bodies two_bodies))) two_bodies = Ok s1' /\
    body_loop (seq 0 (length (bodies two_bodies_other_view)))
      two_bodies_other_view = Ok s2' /\
    Forall2 same_physics (bodies s1') (bodies s2').
Proof.
  assert (Hmass : Forall (fun b => Body.mass b <> 0) (bodies two_bodies)).
  { repeat constructor; sample_fields; lra. }
  assert (Hsame : Forall2 same_physics (bodies two_bodies)
                    (bodies two_bodies_other_view)).
  { repeat constructor. }
  split; [exact Hmass |]. split; [exact Hsame |].
  exact (X20_motion_ignores_view two_bodies two_bodies_other_view Hmass Hsame).
Defined.

(** ** Restart *)



